(** * BackupKeyFiles: a shallow embedding of the backup pipeline

    The development follows the Python sources module by module:
    [lib/encryptor.py], [lib/discoverer.py], [lib/archiver.py],
    [lib/manager.py], [lib/config.py], [keyfiles_backup.py] and
    [backup_util.py].

    Conventions.
    - A Python [str] is a Rocq [string] holding the UTF-8 encoding of the
      text, so [s.encode()] is the list of its bytes, and [==] and
      truthiness of strings are those of the byte strings.
    - A [pathlib.Path] is the list of its [parts]; an absolute path starts
      with the part ["/"].
    - The file system, the terminal, the clock and the random source form
      the [world]; every operation of the program is a function from the
      world to a new world and either an exception or a value.
    - A file system maps paths to regular files and directories; links,
      permissions and the resolution of [..] are outside the model.  An
      I/O call fails when the file system says so (a missing file, a
      directory in the way), or when the environment lets it fail: the
      world carries a counter that makes one chosen I/O call raise.
    - The libraries the program calls ([cryptography], [pathlib]'s globs,
      [tarfile], [pyzipper], [json]) are a parameter of the program.
    - [print] calls are not modelled. *)

From Stdlib Require Import NArith Strings.Byte Strings.Ascii Strings.String.
From stdpp Require Import gmap strings list fin_maps.

(** ** Bytes *)

Abbreviation bytes := (list byte).

#[global] Instance byte_eq_decision : EqDecision byte := Byte.byte_eq_dec.

Definition byte_of_N (n : N) : byte :=
  match Byte.of_N (n mod 256)%N with
  | Some b => b
  | None => x00
  end.

Definition bytes_of_string (s : string) : bytes :=
  String.list_byte_of_string s.

(** ** hashlib.sha256 (FIPS 180-4), on 32-bit words held in [N] *)

Module SHA256.
Local Open Scope N_scope.

Definition mask32 : N := 0xffffffff.
Definition add32 (x y : N) : N := (x + y) mod 2 ^ 32.
Definition rotr (n x : N) : N :=
  N.lor (N.shiftr x n) (N.land (N.shiftl x (32 - n)) mask32).
Definition not32 (x : N) : N := N.lxor x mask32.

Definition Ch (x y z : N) : N := N.lxor (N.land x y) (N.land (not32 x) z).
Definition Maj (x y z : N) : N :=
  N.lxor (N.lxor (N.land x y) (N.land x z)) (N.land y z).
Definition bsig0 (x : N) : N := N.lxor (N.lxor (rotr 2 x) (rotr 13 x)) (rotr 22 x).
Definition bsig1 (x : N) : N := N.lxor (N.lxor (rotr 6 x) (rotr 11 x)) (rotr 25 x).
Definition ssig0 (x : N) : N := N.lxor (N.lxor (rotr 7 x) (rotr 18 x)) (N.shiftr x 3).
Definition ssig1 (x : N) : N := N.lxor (N.lxor (rotr 17 x) (rotr 19 x)) (N.shiftr x 10).

(** The first sixty-four primes. *)
Definition is_prime (n : N) : bool :=
forallb (fun d => negb (n mod N.of_nat d =? 0)) (seq 2%nat (N.to_nat n - 2)).

Definition primes : list N :=
Eval vm_compute in
  filter (fun n => is_prime n = true) (map N.of_nat (seq 2%nat 310)).

(** [root k n]: the largest [r] below [2 ^ 40] with [r ^ k <= n]. *)
Definition root (k n : N) : N :=
foldl (fun r b => let r' := r + 2 ^ N.of_nat b in if r' ^ k <=? n then r' else r)
      0 (rev (seq 0%nat 40)).

(** The round constants are the first thirty-two bits of the fractional
    parts of the cube roots of the primes; the initial hash value is made
    of those of the square roots of the first eight primes. *)
Definition K : list N :=
Eval vm_compute in map (fun p => root 3 (p * 2 ^ 96) mod 2 ^ 32) primes.

Record state := State { ha : N; hb : N; hc : N; hd : N; he : N; hf : N; hg : N; hh : N }.

Definition frac_sqrt (i : nat) : N :=
root 2 (nth i primes 0 * 2 ^ 64) mod 2 ^ 32.

Definition H0 : state :=
Eval vm_compute in
  State (frac_sqrt 0) (frac_sqrt 1) (frac_sqrt 2) (frac_sqrt 3)
        (frac_sqrt 4) (frac_sqrt 5) (frac_sqrt 6) (frac_sqrt 7).

(** Message padding: a one bit, zero bits up to 56 modulo 64 bytes, then
    the bit length as a 64-bit big-endian integer. *)
Definition be_bytes (width : nat) (x : N) : list N :=
  map (fun i => N.shiftr x (8 * N.of_nat i) mod 256) (rev (seq 0%nat width)).

Definition pad (msg : list N) : list N :=
  let len := N.of_nat (length msg) in
  let zeros := N.to_nat ((119 - len mod 64) mod 64) in
  msg ++ [0x80] ++ replicate zeros 0 ++ be_bytes 8%nat (8 * len).

Definition word_of_bytes (l : list N) : N :=
  foldl (fun acc b => 256 * acc + b) 0 l.

Fixpoint words (fuel : nat) (l : list N) : list N :=
  match fuel, l with
  | S fuel', _ :: _ => word_of_bytes (take 4%nat l) :: words fuel' (drop 4%nat l)
  | _, _ => []
  end.

Fixpoint blocks (fuel : nat) (l : list N) : list (list N) :=
  match fuel, l with
  | S fuel', _ :: _ => words 16%nat (take 64%nat l) :: blocks fuel' (drop 64%nat l)
  | _, _ => []
  end.

(** Message schedule: sixteen words of the block, extended to sixty-four. *)
Fixpoint schedule (n : nat) (w : list N) : list N :=
  match n with
  | O => w
  | S n' =>
      let t := length w in
      let at_ (k : nat) := nth (t - k)%nat w 0 in
      schedule n'
        (w ++ [add32 (add32 (ssig1 (at_ 2%nat)) (at_ 7%nat))
                     (add32 (ssig0 (at_ 15%nat)) (at_ 16%nat))])
  end.

Definition round (s : state) (kw : N * N) : state :=
  let t1 := add32 (add32 (add32 (hh s) (bsig1 (he s))) (Ch (he s) (hf s) (hg s)))
                  (add32 kw.1 kw.2) in
  let t2 := add32 (bsig0 (ha s)) (Maj (ha s) (hb s) (hc s)) in
  State (add32 t1 t2) (ha s) (hb s) (hc s) (add32 (hd s) t1) (he s) (hf s) (hg s).

Definition compress (s : state) (block : list N) : state :=
  let r := foldl round s (zip K (schedule 48%nat block)) in
  State (add32 (ha s) (ha r)) (add32 (hb s) (hb r)) (add32 (hc s) (hc r))
        (add32 (hd s) (hd r)) (add32 (he s) (he r)) (add32 (hf s) (hf r))
        (add32 (hg s) (hg r)) (add32 (hh s) (hh r)).

Definition word_bytes (x : N) : bytes := map byte_of_N (be_bytes 4%nat x).

Definition digest (data : bytes) : bytes :=
  let padded := pad (map Byte.to_N data) in
  let s := foldl compress H0 (blocks (length padded) padded) in
  word_bytes (ha s) ++ word_bytes (hb s) ++ word_bytes (hc s) ++ word_bytes (hd s) ++
  word_bytes (he s) ++ word_bytes (hf s) ++ word_bytes (hg s) ++ word_bytes (hh s).

End SHA256.

Definition hex_nibble (n : N) : string :=
  match drop (N.to_nat n) (String.list_ascii_of_string "0123456789abcdef") with
  | c :: _ => String c ""
  | [] => ""
  end.

Definition hexdigest (b : bytes) : string :=
  foldr (fun x acc => hex_nibble (Byte.to_N x / 16)%N +:+ hex_nibble (Byte.to_N x mod 16)%N +:+ acc)
        "" b.

(** ** pathlib.Path *)

Abbreviation path := (list string).

Definition is_absolute (p : path) : bool :=
  match p with
  | "/" :: _ => true
  | _ => false
  end.

(** [split_slash s cur] cuts [s] at every slash; [cur] is the component
    read so far, in reverse. *)
Fixpoint split_slash (s : string) (cur : string) : list string :=
  match s with
  | EmptyString => [String.rev cur]
  | String c s' =>
      if Ascii.eqb c "/"%char then String.rev cur :: split_slash s' ""
      else split_slash s' (String c cur)
  end.

(** [Path(s)]: empty components and single dots are dropped, a leading
    slash becomes the root part. *)
Definition Path (s : string) : path :=
  let comps := filter (fun c => c ≠ "" ∧ c ≠ ".") (split_slash s "") in
  match s with
  | String "/"%char _ => "/" :: comps
  | _ => comps
  end.

(** [a / b] *)
Definition joinpath (a b : path) : path :=
  if is_absolute b then b else a ++ b.

Infix "//" := joinpath (at level 40, left associativity).

(** [p.parent] *)
Definition parent (p : path) : path :=
  match p with
  | ["/"] => ["/"]
  | _ => removelast p
  end.

(** [p.name] *)
Definition name (p : path) : string :=
  match p with
  | ["/"] => ""
  | _ => List.last p ""
  end.

(** [p.expanduser()], for a leading [~] part. *)
Definition expanduser (home : path) (p : path) : path :=
  match p with
  | "~" :: rest => home ++ rest
  | _ => p
  end.

(** ** Exceptions *)

Inductive exn :=
  | KeyError (key : string)
  | TypeError
  | ValueError (msg : string)
  | FileNotFoundError (p : path)
  | FileExistsError (p : path)
  | IsADirectoryError (p : path)
  | NotADirectoryError (p : path)
  | OSError                       (* an I/O fault of the environment *)
  | EOFError
  | SameFileError (p : list string)
  | InvalidTag.                   (* cryptography.exceptions.InvalidTag *)

Inductive outcome (A : Type) :=
  | Return (a : A)
  | Raise (e : exn).
Arguments Return {A} a.
Arguments Raise {A} e.

Definition raised {A} (o : outcome A) : bool :=
  match o with
  | Raise _ => true
  | Return _ => false
  end.

Definition obind {A B} (o : outcome A) (k : A → outcome B) : outcome B :=
  match o with
  | Return a => k a
  | Raise e => Raise e
  end.

Notation "'let?' x := o 'in' k" := (obind o (fun x => k))
  (at level 10, x name, o at level 100, k at level 200).

(** ** The world *)

Inductive node :=
  | File (data : bytes)
  | Dir.

Record world := World {
  fs : gmap path node;          (* the file system *)
  home : path;                  (* Path.home(), os.path.expanduser("~") *)
  histfile : option string;     (* os.environ.get('HISTFILE') *)
  tty : list string;            (* what is typed at the getpass prompts *)
  entropy : nat → byte;         (* the bytes os.urandom will hand out *)
  entropy_pos : nat;
  clock : string;               (* now().strftime("%Y%m%d-%H%M%S") *)
  fault : option nat            (* Some n: the n-th I/O call from now fails *)
}.

Definition set_fs (f : gmap path node → gmap path node) (w : world) : world :=
  World (f (fs w)) (home w) (histfile w) (tty w) (entropy w) (entropy_pos w)
        (clock w) (fault w).

Definition set_tty (t : list string) (w : world) : world :=
  World (fs w) (home w) (histfile w) t (entropy w) (entropy_pos w) (clock w) (fault w).

Definition set_entropy_pos (n : nat) (w : world) : world :=
  World (fs w) (home w) (histfile w) (tty w) (entropy w) n (clock w) (fault w).

Definition set_fault (f : option nat) (w : world) : world :=
  World (fs w) (home w) (histfile w) (tty w) (entropy w) (entropy_pos w) (clock w) f.

(** ** Computations: world passing with exceptions *)

Definition M (A : Type) : Type := world → world * outcome A.

Definition ret {A} (a : A) : M A := fun w => (w, Return a).
Definition raise {A} (e : exn) : M A := fun w => (w, Raise e).

Definition bind {A B} (m : M A) (k : A → M B) : M B :=
  fun w =>
    match m w with
    | (w', Return a) => k a w'
    | (w', Raise e) => (w', Raise e)
    end.

Notation "'let!' x := m 'in' k" := (bind m (fun x => k))
  (at level 10, x name, m at level 100, k at level 200).
Notation "'do!' m 'in' k" := (bind m (fun _ => k))
  (at level 10, m at level 100, k at level 200).

(** [try: m finally: c] *)
Definition try_finally {A} (m : M A) (c : M unit) : M A :=
  fun w =>
    match m w with
    | (w', r) =>
        match c w' with
        | (w'', Return _) => (w'', r)
        | (w'', Raise e) => (w'', Raise e)
        end
    end.

(** [try: m except Exception: h] *)
Definition try_except {A} (m : M A) (h : exn → M A) : M A :=
  fun w =>
    match m w with
    | (w', Return a) => (w', Return a)
    | (w', Raise e) => h e w'
    end.

Definition get_world : M world := fun w => (w, Return w).

Definition lift {A} (o : outcome A) : M A := fun w => (w, o).

(** [for x in l: body x] *)
Fixpoint for_each {A} (l : list A) (body : A → M unit) : M unit :=
  match l with
  | [] => ret tt
  | x :: l' => do! body x in for_each l' body
  end.

(** Every I/O call may be the one the environment lets fail. *)
Definition io : M unit :=
  fun w =>
    match fault w with
    | Some O => (set_fault None w, Raise OSError)
    | Some (S n) => (set_fault (Some n) w, Return tt)
    | None => (w, Return tt)
    end.

(** ** File-system primitives *)

Definition p_exists (m : gmap path node) (p : path) : bool :=
  match m !! p with
  | Some _ => true
  | None => false
  end.

Definition p_is_file (m : gmap path node) (p : path) : bool :=
  match m !! p with
  | Some (File _) => true
  | _ => false
  end.

Definition p_is_dir (m : gmap path node) (p : path) : bool :=
  match m !! p with
  | Some Dir => true
  | _ => false
  end.

Definition node_data (n : node) : bytes :=
  match n with
  | File data => data
  | Dir => []
  end.

(** The content of the regular file at [p], if there is one. *)
Definition file_data (m : gmap path node) (p : path) : option bytes :=
  match m !! p with
  | Some (File data) => Some data
  | _ => None
  end.

(** [d.iterdir()], [os.listdir(d)]: the entries directly inside [d]. *)
Definition iterdir (m : gmap path node) (d : path) : list path :=
  filter (fun p => parent p = d ∧ p ≠ d) (elements (dom m)).

(** The non-empty prefixes of a path, shortest first. *)
Definition ancestors_and_self (p : path) : list path :=
  map (fun n => take n p) (seq 1 (length p)).

(** [mkdirs l m]: the file system [m] with a directory at every path of [l]. *)
Definition mkdirs (l : list path) (m : gmap path node) : gmap path node :=
  foldr (fun q m' => <[q := Dir]> m') m l.

(** [p.mkdir(parents=True, exist_ok=...)] *)
Definition mkdir_parents (exist_ok : bool) (p : path) : M unit :=
  do! io in
  fun w =>
    match List.find (p_is_file (fs w)) (ancestors_and_self p) with
    | Some q =>
        (w, Raise (if decide (q = p) then FileExistsError p else NotADirectoryError p))
    | None =>
        if p_exists (fs w) p && negb exist_ok then (w, Raise (FileExistsError p))
        else
          (set_fs (mkdirs (ancestors_and_self p)) w, Return tt)
    end.

(** [shutil.rmtree(p)]; removing what is there is taken not to fail. *)
Definition rmtree (p : path) : M unit :=
  fun w =>
    match fs w !! p with
    | Some Dir => (set_fs (filter (fun kv => ¬ p `prefix_of` kv.1)) w, Return tt)
    | Some (File _) => (w, Raise (NotADirectoryError p))
    | None => (w, Raise (FileNotFoundError p))
    end.

(** [open(p, 'rb')]: the file must be there. *)
Definition open_rb (p : path) : M unit :=
  do! io in
  fun w =>
    match fs w !! p with
    | Some (File _) => (w, Return tt)
    | Some Dir => (w, Raise (IsADirectoryError p))
    | None => (w, Raise (FileNotFoundError p))
    end.

(** [f.read()] on a file opened at [p], from offset [pos]. *)
Definition read_from (p : path) (pos : nat) : M bytes :=
  do! io in
  fun w =>
    match fs w !! p with
    | Some (File data) => (w, Return (drop pos data))
    | _ => (w, Return [])
    end.

(** [f.read(n)] at the start of a file opened at [p]. *)
Definition read_n (p : path) (n : nat) : M bytes :=
  do! io in
  fun w =>
    match fs w !! p with
    | Some (File data) => (w, Return (take n data))
    | _ => (w, Return [])
    end.

(** [open(p, 'wb')]: creates the file or truncates it. *)
Definition open_wb (p : path) : M unit :=
  do! io in
  fun w =>
    match fs w !! p with
    | Some Dir => (w, Raise (IsADirectoryError p))
    | _ =>
        match fs w !! parent p with
        | Some Dir => (set_fs (insert p (File [])) w, Return tt)
        | Some (File _) => (w, Raise (NotADirectoryError p))
        | None => (w, Raise (FileNotFoundError p))
        end
    end.

(** Closing a file opened for writing at [p]: what was written reaches
    the file, which is still the regular file at [p]. *)
Definition close_wb (p : path) (written : bytes) : M unit :=
  fun w =>
    match fs w !! p with
    | Some (File _) => (set_fs (insert p (File written)) w, Return tt)
    | _ => (w, Return tt)
    end.

(** [shutil.copy2(src, dst)]: into [dst] when it is a directory. *)
Definition copy2 (src dst : path) : M unit :=
  let! w := get_world in
  let target := if p_is_dir (fs w) dst then dst ++ [name src] else dst in
  do! (if decide (src = target) then raise (SameFileError src) else ret tt) in
  do! open_rb src in
  do! open_wb target in
  let! data := read_from src 0 in
  close_wb target data.

(** [os.urandom(n)] *)
Definition urandom (n : nat) : M bytes :=
  fun w =>
    (set_entropy_pos (entropy_pos w + n) w,
     Return (map (entropy w) (seq (entropy_pos w) n))).

(** [getpass.getpass(prompt)] *)
Definition getpass : M string :=
  fun w =>
    match tty w with
    | line :: rest => (set_tty rest w, Return line)
    | [] => (w, Raise EOFError)
    end.

(** ** JSON values, Python dictionaries *)

#[local] Set Warnings "-register-all".

Inductive json :=
  | JNull
  | JBool (b : bool)
  | JNum (n : Z)
  | JStr (s : string)
  | JList (l : list json)
  | JDict (d : list (string * json)).

Abbreviation dict := (list (string * json)).

(** [d.get(k)] *)
Fixpoint dict_get (d : dict) (k : string) : option json :=
  match d with
  | [] => None
  | (k', v) :: d' => if String.eqb k k' then Some v else dict_get d' k
  end.

(** [d[k]] *)
Definition dict_item (d : dict) (k : string) : outcome json :=
  match dict_get d k with
  | Some v => Return v
  | None => Raise (KeyError k)
  end.

(** [d[k] = v] *)
Fixpoint dict_set (d : dict) (k : string) (v : json) : dict :=
  match d with
  | [] => [(k, v)]
  | (k', v') :: d' =>
      if String.eqb k k' then (k, v) :: d' else (k', v') :: dict_set d' k v
  end.

(** Truth value of a Python object. *)
Definition truthy (v : json) : bool :=
  match v with
  | JNull => false
  | JBool b => b
  | JNum n => negb (n =? 0)%Z
  | JStr s => negb (String.eqb s "")
  | JList l => match l with [] => false | _ => true end
  | JDict d => match d with [] => false | _ => true end
  end.

(** ** The libraries the program calls

    Their code is not part of the repository; the program is verified
    against any implementation of them, and the properties that need a
    contract of a library state it as a hypothesis. *)

Record pylib := PyLib {
  (* AESGCM(key).encrypt(nonce, data, None): ciphertext followed by the tag *)
  aead_encrypt : bytes → bytes → bytes → bytes;
  (* AESGCM(key).decrypt(nonce, data, None); None when the tag check fails *)
  aead_decrypt : bytes → bytes → bytes → option bytes;
  (* Path.glob(pattern) and Path.rglob(pattern) *)
  glob : gmap path node → path → string → outcome (list path);
  rglob : gmap path node → path → string → outcome (list path);
  (* the image of a gzip-compressed tar file with the given members; the
     flag tells whether the archive was closed properly *)
  tar_image : list (list string * node) → bool → bytes;
  (* the same for an AES-encrypted zip file with a password *)
  zip_image : string → list (list string * node) → bool → bytes;
  (* json.load, None on malformed input, and json.dump *)
  json_loads : bytes → option json;
  json_dumps : json → bytes
}.

(** Flipping bit [i] of a byte string, bit 0 being the lowest bit of the
    first byte. *)
Definition flip_byte (j : nat) (b : byte) : byte :=
  byte_of_N (N.lxor (Byte.to_N b) (N.shiftl 1 (N.of_nat (j mod 8)))).

Definition flip_bit (i : nat) (l : bytes) : bytes :=
  alter (flip_byte (i mod 8)) (i `div` 8) l.

(** What the program relies on from AES-GCM with a 256-bit key and a
    96-bit nonce: decryption inverts encryption, and a ciphertext with
    one bit flipped, in the ciphertext proper or in the tag, is rejected. *)
Definition aead_correct (lib : pylib) : Prop :=
  ∀ k n p, length k = 32 → length n = 12 →
    aead_decrypt lib k n (aead_encrypt lib k n p) = Some p.

Definition aead_rejects_flips (lib : pylib) : Prop :=
  ∀ k n p i, length k = 32 → length n = 12 →
    i < 8 * length (aead_encrypt lib k n p) →
    aead_decrypt lib k n (flip_bit i (aead_encrypt lib k n p)) = None.

(** ** lib/encryptor.py *)

Record FileEncryptor := { key : bytes }.

Section encryptor.
Context (lib : pylib).

(** [FileEncryptor.__init__] *)
Definition FileEncryptor_init (passphrase : string) : M FileEncryptor :=
  ret {| key := SHA256.digest (bytes_of_string passphrase) |}.

(** [AESGCM.decrypt] checks the nonce length before anything else. *)
Definition AESGCM_decrypt (k nonce data : bytes) : outcome bytes :=
  if (length nonce <? 8) || (128 <? length nonce)
  then Raise (ValueError "Nonce must be between 8 and 128 bytes")
  else match aead_decrypt lib k nonce data with
       | Some plaintext => Return plaintext
       | None => Raise InvalidTag
       end.

(** [FileEncryptor.encrypt_file].  What is written to [f_out] reaches
    the file when the [with] block is left, also by an exception. *)
Definition encrypt_file (self : FileEncryptor) (input_file_path output_file_path : path)
  : M unit :=
  let! nonce := urandom 12 in
  do! open_rb input_file_path in
  do! open_wb output_file_path in
  let! plaintext :=
    try_except (read_from input_file_path 0)
               (fun e => do! close_wb output_file_path nonce in raise e) in
  let ciphertext := aead_encrypt lib (key self) nonce plaintext in
  close_wb output_file_path (nonce ++ ciphertext).

(** [FileEncryptor.decrypt_file] *)
Definition decrypt_file (self : FileEncryptor) (input_file_path output_file_path : path)
  : M unit :=
  do! open_rb input_file_path in
  do! open_wb output_file_path in
  let! nonce := read_n input_file_path 12 in
  let! ciphertext := read_from input_file_path 12 in
  let! plaintext := lift (AESGCM_decrypt (key self) nonce ciphertext) in
  close_wb output_file_path plaintext.

End encryptor.

(** Iterating over a Python object, and subscripting it with a string. *)
Definition py_iter (v : json) : outcome (list json) :=
  match v with
  | JList l => Return l
  | JStr s => Return (map (fun c => JStr (String c "")) (String.list_ascii_of_string s))
  | JDict d => Return (map (fun kv => JStr kv.1) d)
  | _ => Raise TypeError
  end.

Definition subscript (v : json) (k : string) : outcome json :=
  match v with
  | JDict d => dict_item d k
  | _ => Raise TypeError
  end.

(** [v == s] for a string literal [s] *)
Definition is_str (v : json) (s : string) : bool :=
  match v with
  | JStr s' => String.eqb s' s
  | _ => false
  end.

(** [Path(v)] *)
Definition Path_of (v : json) : outcome (list string) :=
  match v with
  | JStr s => Return (Path s)
  | _ => Raise TypeError
  end.

(** ** lib/discoverer.py *)

Record FileDiscoverer := {
  get_setting : string → option json;   (* self.config.get_setting *)
  home_dir : path
}.

Definition FileDiscoverer_init (config_get_setting : string → option json) : M FileDiscoverer :=
  let! w := get_world in
  ret {| get_setting := config_get_setting; home_dir := home w |}.

Section discoverer.
Context (lib : pylib).
(** Discovery only reads: the file system and [HISTFILE] are arguments. *)
Context (m : gmap path node) (histfile_env : option string).

Definition common_files : list string :=
  [".bash_history"; ".zsh_history"; ".fish_history"; ".python_history";
   ".node_repl_history"].

Definition get_shell_history_files (self : FileDiscoverer) : list path :=
  let history_files :=
    filter (fun fpath => p_exists m fpath && p_is_file m fpath)
           (map (fun fname => home_dir self // [fname]) common_files) in
  match histfile_env with
  | Some (String _ _ as h) =>
      let fpath_env := Path h in
      if p_exists m fpath_env && p_is_file m fpath_env
         && negb (bool_decide (fpath_env ∈ history_files))
      then history_files ++ [fpath_env]
      else history_files
  | _ => history_files
  end.

Definition get_ssh_key_files (self : FileDiscoverer) : list path :=
  let ssh_dir := home_dir self // [".ssh"] in
  if p_is_dir m ssh_dir then filter (fun item => p_is_file m item) (iterdir m ssh_dir)
  else [].

Definition get_gpg_key_files (self : FileDiscoverer) : list path :=
  let gpg_dir := home_dir self // [".gpg"] in
  if p_is_dir m gpg_dir then filter (fun item => p_is_file m item) (iterdir m gpg_dir)
  else [].

(** The loop over the patterns of a [custom_directory] rule. *)
Fixpoint glob_patterns (custom_d : path) (recursive : json) (patterns : list json)
    (all_files_to_backup : gset path) : outcome (gset path) :=
  match patterns with
  | [] => Return all_files_to_backup
  | JStr pattern :: rest =>
      let? found := (if truthy recursive then rglob lib m custom_d pattern
                     else glob lib m custom_d pattern) in
      glob_patterns custom_d recursive rest (all_files_to_backup ∪ list_to_set found)
  | _ :: _ => Raise TypeError
  end.

(** The body of the loop over the rules. *)
Definition discover_rule (self : FileDiscoverer) (rule : json)
    (all_files_to_backup : gset path) : outcome (gset path) :=
  let? type := subscript rule "type" in
  if is_str type "shell_history" then
    Return (all_files_to_backup ∪ list_to_set (get_shell_history_files self))
  else if is_str type "ssh_keys" then
    Return (all_files_to_backup ∪ list_to_set (get_ssh_key_files self))
  else if is_str type "gpg_keys" then
    Return (all_files_to_backup ∪ list_to_set (get_gpg_key_files self))
  else if is_str type "custom_path" then
    let? p := subscript rule "path" in
    let? p := Path_of p in
    let custom_p := expanduser (home_dir self) p in
    if p_exists m custom_p && p_is_file m custom_p
    then Return (all_files_to_backup ∪ {[ custom_p ]})
    else Return all_files_to_backup
  else if is_str type "custom_directory" then
    let? p := subscript rule "path" in
    let? p := Path_of p in
    let custom_d := expanduser (home_dir self) p in
    if p_is_dir m custom_d then
      let patterns :=
        match rule with
        | JDict d => default (JList [JStr "*"]) (dict_get d "patterns")
        | _ => JList [JStr "*"]
        end in
      let recursive :=
        match rule with
        | JDict d => default (JBool true) (dict_get d "recursive")
        | _ => JBool true
        end in
      let? patterns := py_iter patterns in
      glob_patterns custom_d recursive patterns all_files_to_backup
    else Return all_files_to_backup
  else Return all_files_to_backup.

Fixpoint discover_rules (self : FileDiscoverer) (rules : list json)
    (all_files_to_backup : gset path) : outcome (gset path) :=
  match rules with
  | [] => Return all_files_to_backup
  | rule :: rest =>
      let? s := discover_rule self rule all_files_to_backup in
      discover_rules self rest s
  end.

(** [FileDiscoverer.discover_all_files] *)
Definition discover_all_files (self : FileDiscoverer) : outcome (list path) :=
  let? rules := py_iter (default JNull (get_setting self "files_to_include")) in
  let? all_files_to_backup := discover_rules self rules ∅ in
  Return (filter (fun f => p_is_file m f) (elements all_files_to_backup)).

End discoverer.

(** ** lib/archiver.py *)

Record Archiver := { archive_format : string }.

(** [Archiver.__init__] *)
Definition Archiver_init (format : string) : M Archiver :=
  if bool_decide (format ∈ ["tar.gz"; "zip"])
  then ret {| archive_format := format |}
  else raise (ValueError "Unsupported archive format. Choose 'tar.gz' or 'zip'.").

Section archiver.
Context (lib : pylib).

(** [tar.add(file_path, arcname)]: a directory is added with all that
    is below it.  What has been added reaches the archive file at once;
    the archive stays unfinished until it is closed. *)
Definition tar_add (archive : path) (members : list (path * node))
    (file_path arcname : path) : M (list (path * node)) :=
  do! io in
  let! w := get_world in
  match fs w !! file_path with
  | None => raise (FileNotFoundError file_path)
  | Some _ =>
      let below :=
        filter (fun kv => file_path `prefix_of` kv.1) (map_to_list (fs w)) in
      let members' :=
        members ++ map (fun kv => (arcname ++ drop (length file_path) kv.1, kv.2)) below in
      do! close_wb archive (tar_image lib members' false) in
      ret members'
  end.

Fixpoint tar_add_all (archive staging_area : path) (files_to_archive : list path)
    (members : list (path * node)) : M (list (path * node)) :=
  match files_to_archive with
  | [] => ret members
  | file_path :: rest =>
      let! arcname :=
        (if bool_decide (staging_area `prefix_of` file_path)
         then ret (drop (length staging_area) file_path)
         else raise (ValueError "not in the subpath")) in
      let! members' := tar_add archive members file_path arcname in
      tar_add_all archive staging_area rest members'
  end.

(** [Archiver.compress_files] *)
Definition compress_files (self : Archiver) (files_to_archive : list path)
    (archive_path_output staging_area : path) : M unit :=
  if String.eqb (archive_format self) "tar.gz" then
    do! open_wb archive_path_output in
    do! close_wb archive_path_output (tar_image lib [] false) in
    let! members := tar_add_all archive_path_output staging_area files_to_archive [] in
    close_wb archive_path_output (tar_image lib members true)
  else ret tt.

End archiver.

(** ** lib/manager.py *)

(** The literal dictionary [self.config_data], its keys as fields. *)
Record config_data_t := {
  backup_destination_path : string;
  encryption_passphrase_prompt : bool;
  temporary_staging_path : string;
  cd_archive_format : string;
  files_to_include : list json
}.

Definition manager_config_data : config_data_t :=
  {| backup_destination_path := "/tmp/my_backups/";
     encryption_passphrase_prompt := true;
     temporary_staging_path := "/tmp/my_backup_staging/";
     cd_archive_format := "tar.gz";
     files_to_include :=
       [ JDict [("type", JStr "shell_history")]; JDict [("type", JStr "ssh_keys")] ] |}.

(** [self.config_data.get(key_name)] *)
Definition config_data_get (c : config_data_t) (key_name : string) : option json :=
  if String.eqb key_name "backup_destination_path" then Some (JStr (backup_destination_path c))
  else if String.eqb key_name "encryption_passphrase_prompt"
       then Some (JBool (encryption_passphrase_prompt c))
  else if String.eqb key_name "temporary_staging_path" then Some (JStr (temporary_staging_path c))
  else if String.eqb key_name "archive_format" then Some (JStr (cd_archive_format c))
  else if String.eqb key_name "files_to_include" then Some (JList (files_to_include c))
  else None.

Record BackupManager := {
  config_data : config_data_t;
  discoverer : FileDiscoverer;
  encryptor : option FileEncryptor;
  archiver : Archiver;
  staging_path : path
}.

(** [original_file_path.relative_to(Path.home())], with the fallback to
    the path made of [original_file_path.parts[1:]]. *)
Definition relative_path (home_ original_file_path : path) : path :=
  if bool_decide (home_ `prefix_of` original_file_path)
  then drop (length home_) original_file_path
  else tail original_file_path.

Section manager.
Context (lib : pylib).

(** [BackupManager.__init__]; the argument is not looked at. *)
Definition BackupManager_init {A} (config_path : A) : M BackupManager :=
  let config_data := manager_config_data in
  do! mkdir_parents true (Path (backup_destination_path config_data)) in
  let! discoverer := FileDiscoverer_init (config_data_get config_data) in
  let! passphrase :=
    (if encryption_passphrase_prompt config_data then
       let! passphrase := getpass in
       let! confirm_passphrase := getpass in
       if negb (String.eqb passphrase confirm_passphrase)
       then raise (ValueError "Passphrases do not match.")
       else ret (Some passphrase)
     else ret None) in
  let! encryptor :=
    match passphrase with
    | Some (String _ _ as passphrase) =>
        let! e := FileEncryptor_init passphrase in ret (Some e)
    | _ => ret None
    end in
  let! archiver := Archiver_init (cd_archive_format config_data) in
  ret {| config_data := config_data;
         discoverer := discoverer;
         encryptor := encryptor;
         archiver := archiver;
         staging_path := Path (temporary_staging_path config_data) |}.

Definition _setup_staging_area (self : BackupManager) : M unit :=
  let! w := get_world in
  do! (if p_exists (fs w) (staging_path self) then rmtree (staging_path self) else ret tt) in
  mkdir_parents false (staging_path self).

Definition _cleanup_staging_area (self : BackupManager) : M unit :=
  let! w := get_world in
  if p_exists (fs w) (staging_path self) then rmtree (staging_path self) else ret tt.

(** One turn of the staging loop of [run_backup]. *)
Definition stage_file (self : BackupManager) (original_file_path : path) : M path :=
  let! w := get_world in
  let staged_file_dest_path :=
    staging_path self // relative_path (home w) original_file_path in
  do! mkdir_parents true (parent staged_file_dest_path) in
  do! match encryptor self with
      | Some enc => encrypt_file lib enc original_file_path staged_file_dest_path
      | None => copy2 original_file_path staged_file_dest_path
      end in
  ret staged_file_dest_path.

Fixpoint stage_all (self : BackupManager) (original_files : list path)
    (staged_files_for_archive : list path) : M (list path) :=
  match original_files with
  | [] => ret staged_files_for_archive
  | original_file_path :: rest =>
      let! staged := stage_file self original_file_path in
      stage_all self rest (staged_files_for_archive ++ [staged])
  end.

Definition final_archive_path (self : BackupManager) (w : world) : path :=
  let archive_filename :=
    "backup-" +:+ clock w +:+ "." +:+ cd_archive_format (config_data self) in
  Path (backup_destination_path (config_data self)) // Path archive_filename.

(** The part of [run_backup] after the staging loop. *)
Definition archive_staged (self : BackupManager) (staged_files_for_archive : list path)
  : M unit :=
  let! w := get_world in
  compress_files lib (archiver self) staged_files_for_archive
    (final_archive_path self w) (staging_path self).

(** [BackupManager.run_backup] *)
Definition run_backup (self : BackupManager) : M unit :=
  let! w := get_world in
  let! original_files :=
    lift (discover_all_files lib (fs w) (histfile w) (discoverer self)) in
  match original_files with
  | [] => ret tt
  | _ :: _ =>
      do! _setup_staging_area self in
      try_finally
        (let! staged := stage_all self original_files [] in
         archive_staged self staged)
        (_cleanup_staging_area self)
  end.

End manager.

(** ** keyfiles_backup.py *)

Record KeyBackup := {
  ssh_key_path : string;
  gpg_key_path : string;
  zip_password : string;
  zip_filename : string;
  kb_home_dir : path;
  temp_dir : path
}.

Section key_backup.
Context (lib : pylib).

(** [KeyBackup.__init__] *)
Definition KeyBackup_init (ssh_key_path gpg_key_path zip_password zip_filename : string)
  : M KeyBackup :=
  let! w := get_world in
  let temp_dir := home w // Path "temp_keys_backup" in
  do! mkdir_parents true temp_dir in
  ret {| ssh_key_path := ssh_key_path; gpg_key_path := gpg_key_path;
         zip_password := zip_password; zip_filename := zip_filename;
         kb_home_dir := home w; temp_dir := temp_dir |}.

Definition prepare_files (self : KeyBackup) : M unit :=
  for_each [ssh_key_path self; gpg_key_path self] (fun key_path =>
    let! w := get_world in
    if p_exists (fs w) (Path key_path) then copy2 (Path key_path) (temp_dir self)
    else ret tt).

(** [zf.write(filepath, arcname=filename)]; the zip file is closed when
    the [with] block is left, also by an exception. *)
Definition zf_write (self : KeyBackup) (zip_path : path) (members : list (path * node))
    (filepath : path) : M (list (path * node)) :=
  do! io in
  let! w := get_world in
  match fs w !! filepath with
  | None => raise (FileNotFoundError filepath)
  | Some n =>
      let members' := members ++ [([name filepath], n)] in
      do! close_wb zip_path (zip_image lib (zip_password self) members' true) in
      ret members'
  end.

Fixpoint zf_write_all (self : KeyBackup) (zip_path : path) (filepaths : list path)
    (members : list (path * node)) : M unit :=
  match filepaths with
  | [] => ret tt
  | filepath :: rest =>
      let! members' := zf_write self zip_path members filepath in
      zf_write_all self zip_path rest members'
  end.

Definition create_encrypted_zip (self : KeyBackup) : M path :=
  let zip_path := kb_home_dir self // Path (zip_filename self) in
  do! open_wb zip_path in
  do! close_wb zip_path (zip_image lib (zip_password self) [] true) in
  let! w := get_world in
  do! match fs w !! temp_dir self with
      | Some Dir => ret tt
      | Some (File _) => raise (NotADirectoryError (temp_dir self))
      | None => raise (FileNotFoundError (temp_dir self))
      end in
  do! zf_write_all self zip_path (iterdir (fs w) (temp_dir self)) [] in
  ret zip_path.

Definition cleanup (self : KeyBackup) : M unit :=
  rmtree (temp_dir self).

(** [KeyBackup.run_backup] *)
Definition KeyBackup_run_backup (self : KeyBackup) : M unit :=
  do! prepare_files self in
  let! zip_path := create_encrypted_zip self in
  cleanup self.

End key_backup.

(** ** lib/config.py *)

(** [str(p)] *)
Definition path_str (p : path) : string :=
  match p with
  | [] => "."
  | "/" :: rest => "/" +:+ String.concat "/" rest
  | _ => String.concat "/" p
  end.

Definition DEFAULT_CONFIG (home_ : path) : dict :=
  [ ("backup_destination_path", JStr (path_str (home_ // ["backups"] // ["my_system_backup"])));
    ("encryption_enabled", JBool true);
    ("encryption_passphrase_prompt", JBool true);
    ("encryption_key_path", JNull);
    ("temporary_staging_path", JStr "/tmp/backup_utility_staging");
    ("archive_format", JStr "tar.gz");
    ("log_file_path",
     JStr (path_str (home_ // [".local"] // ["state"] // ["backup_utility"] // ["backup.log"])));
    ("log_level", JStr "INFO");
    ("files_to_include",
     JList
       [ JDict [ ("type", JStr "shell_history"); ("enabled", JBool true);
                 ("details",
                  JStr "Backs up common shell history files (.bash_history, .zsh_history, etc.)") ];
         JDict [ ("type", JStr "ssh_keys"); ("enabled", JBool true);
                 ("include_private_keys", JBool true); ("include_public_keys", JBool true);
                 ("include_known_hosts", JBool true); ("include_config_file", JBool true);
                 ("details",
                  JStr "Backs up SSH keys and related configuration from ~/.ssh/") ] ]) ].

Record BackupConfig := {
  config_file_path : path;
  settings : dict
}.

(** [BackupConfig._recursive_update]; an update that is not a dictionary
    has no [items] and changes nothing. *)
Fixpoint _recursive_update (base_dict : dict) (update_dict : json) {struct update_dict} : dict :=
  match update_dict with
  | JDict items =>
      (fix loop (base_dict : dict) (items : list (string * json)) {struct items} : dict :=
         match items with
         | [] => base_dict
         | (key, value) :: rest =>
             let base_dict' :=
               match value, dict_get base_dict key with
               | JDict _, Some (JDict sub) =>
                   dict_set base_dict key (JDict (_recursive_update sub value))
               | _, _ => dict_set base_dict key value
               end in
             loop base_dict' rest
         end) base_dict items
  | _ => base_dict
  end.

Section config.
Context (lib : pylib).

(** [BackupConfig._load_and_merge_config] *)
Definition _load_and_merge_config (config_file_path : path) : M dict :=
  let! w := get_world in
  let defaults := DEFAULT_CONFIG (home w) in
  let! current_settings :=
    (if p_exists (fs w) config_file_path && p_is_file (fs w) config_file_path then
       try_except
         (do! open_rb config_file_path in
          let! text := read_from config_file_path 0 in
          match json_loads lib text with
          | Some user_config => ret (_recursive_update defaults user_config)
          | None => ret defaults
          end)
         (fun _ => ret defaults)
     else
       try_except
         (do! mkdir_parents true (parent config_file_path) in
          do! open_wb config_file_path in
          do! close_wb config_file_path (json_dumps lib (JDict defaults)) in
          ret defaults)
         (fun _ => ret defaults)) in
  do! try_except
        (let! log_path :=
           lift (Path_of (default (default JNull (dict_get defaults "log_file_path"))
                                  (dict_get current_settings "log_file_path"))) in
         mkdir_parents true (parent (expanduser (home w) log_path)))
        (fun _ => ret tt) in
  ret current_settings.

(** [BackupConfig.__init__] *)
Definition BackupConfig_init (config_file_path : string) : M BackupConfig :=
  let! settings := _load_and_merge_config (Path config_file_path) in
  ret {| config_file_path := Path config_file_path; settings := settings |}.

End config.

(** The getters of [BackupConfig]; [home_] is the home directory. *)
Definition setting (self : BackupConfig) (home_ : path) (k : string) : json :=
  default (default JNull (dict_get (DEFAULT_CONFIG home_) k)) (dict_get (settings self) k).

Definition get_backup_destination (self : BackupConfig) (home_ : path) : outcome path :=
  let? p := Path_of (setting self home_ "backup_destination_path") in
  Return (expanduser home_ p).

Definition get_temporary_staging_path (self : BackupConfig) (home_ : path) : outcome path :=
  let? p := Path_of (setting self home_ "temporary_staging_path") in
  Return (expanduser home_ p).

Definition get_archive_format (self : BackupConfig) (home_ : path) : json :=
  setting self home_ "archive_format".

Definition get_files_to_include_rules (self : BackupConfig) (home_ : path) : json :=
  setting self home_ "files_to_include".

(** ** backup_util.py *)

Inductive action := backup | restore.

Section backup_util.
Context (lib : pylib).

(** [main], with the parsed arguments [args.action] and [args.config]. *)
Definition main (args_action : action) (args_config : string) : M unit :=
  let! backup_config := BackupConfig_init lib args_config in
  let! manager := BackupManager_init backup_config in
  match args_action with
  | backup =>
      try_except
        (let! manager := BackupManager_init args_config in
         run_backup lib manager)
        (fun _ => ret tt)
  | restore => ret tt
  end.

End backup_util.

(** ** lib/gpg_files.py *)

Definition gpg_target_names_relative : list string :=
  [ "gpg.conf"; "gpg-agent.conf"; "pubring.kbx"; "trustdb.gpg";
    "private-keys-v1.d"; "openpgp-revocs.d"; "secring.gpg"; "pubring.gpg" ].

(** [get_potential_gpg_backup_targets]; [home_] is [Path.home()]. *)
Definition get_potential_gpg_backup_targets (m : gmap path node) (home_ : path) : list path :=
  let gpg_home_default := home_ // [".gnupg"] in
  if negb (p_is_dir m gpg_home_default) then []
  else map (fun name => gpg_home_default // [name]) gpg_target_names_relative.

(** ** lib/ssh_files.py *)

(** The order of [pathlib] paths: that of their lists of parts, strings
    compared character by character. *)
Fixpoint path_leb (p q : list string) : bool :=
  match p, q with
  | [], _ => true
  | _ :: _, [] => false
  | a :: p', b :: q' =>
      match String.compare a b with
      | Lt => true
      | Gt => false
      | Eq => path_leb p' q'
      end
  end.

Fixpoint insert_sorted (p : list string) (l : list (list string)) : list (list string) :=
  match l with
  | [] => [p]
  | q :: l' => if path_leb p q then p :: l else q :: insert_sorted p l'
  end.

(** [sorted(l)] *)
Definition sorted (l : list (list string)) : list (list string) :=
  foldr insert_sorted [] l.

Definition standard_key_basenames : list string :=
  ["id_rsa"; "id_ecdsa"; "id_ed25519"; "id_ecdsa_sk"; "id_ed25519_sk"].

Definition other_ssh_filenames : list string :=
  ["config"; "known_hosts"; "authorized_keys"; "id_dsa"; "id_dsa.pub"; "identity";
   "identity.pub"].

(** [get_potential_ssh_file_paths] *)
Definition get_potential_ssh_file_paths (ssh_dir : list string) : list (list string) :=
  let potential_paths_set : gset (list string) :=
    foldl (fun s filename => s ∪ {[ ssh_dir // [filename] ]}) ∅ other_ssh_filenames in
  let potential_paths_set :=
    foldl (fun s basename =>
             s ∪ {[ ssh_dir // [basename] ]} ∪ {[ ssh_dir // [basename +:+ ".pub"] ]})
          potential_paths_set standard_key_basenames in
  sorted (elements potential_paths_set).

(** [Archiver.extract_files]; [extractall data destination] stands for
    [tarfile]'s reading of the archive and its [extractall]. *)
Definition extract_files (extractall : list Byte.byte → list string → M unit)
    (self : Archiver) (archive_path_input destination_path : list string) : M unit :=
  do! mkdir_parents true destination_path in
  if String.eqb (archive_format self) "tar.gz" then
    do! open_rb archive_path_input in
    let! data := read_from archive_path_input 0 in
    extractall data destination_path
  else ret tt.

(** ** A small implementation of the libraries, and a small world

    Used to run the program on concrete inputs.  The stand-in for AES-GCM
    repeats the plaintext as its own tag; the archive images list the
    member contents one after the other, followed by a closing byte. *)

Definition halves_decrypt (data : bytes) : option bytes :=
  let h := length data `div` 2 in
  if bool_decide (take h data ++ take h data = data) then Some (take h data) else None.

Definition toy_lib : pylib :=
  {| aead_encrypt := fun _ _ p => p ++ p;
     aead_decrypt := fun _ _ c => halves_decrypt c;
     glob := fun _ _ _ => Return [];
     rglob := fun _ _ _ => Return [];
     tar_image := fun members closed =>
       concat (map (fun e => node_data e.2) members) ++ (if closed then ["."%byte] else []);
     zip_image := fun _ members closed =>
       concat (map (fun e => node_data e.2) members) ++ (if closed then ["."%byte] else []);
     json_loads := fun _ => None;
     json_dumps := fun _ => [] |}.

Definition demo_home : path := ["/"; "home"; "u"].

Definition demo_fs : gmap path node :=
  list_to_map
    [ (["/"], Dir);
      (["/"; "home"], Dir);
      (demo_home, Dir);
      (demo_home ++ [".bash_history"], File (bytes_of_string "ls"));
      (demo_home ++ [".ssh"], Dir);
      (demo_home ++ [".ssh"; "id_rsa"], File (bytes_of_string "PRIVATE"));
      (demo_home ++ [".ssh"; "id_rsa.pub"], File (bytes_of_string "PUBLIC"));
      (["/"; "tmp"], Dir);
      (["/"; "tmp"; "empty"], File []) ].

(** A file system with nothing to back up, and with a staging root left
    behind by an earlier run. *)
Definition bare_fs : gmap path node :=
  list_to_map
    [ (["/"], Dir);
      (["/"; "home"], Dir);
      (demo_home, Dir);
      (["/"; "tmp"], Dir);
      (["/"; "tmp"; "my_backup_staging"], Dir);
      (["/"; "tmp"; "my_backup_staging"; "leftover"], File (bytes_of_string "old")) ].

Definition demo_world (typed : list string) (f : option nat) : world :=
  {| fs := demo_fs;
     home := demo_home;
     histfile := None;
     tty := typed;
     entropy := fun n => byte_of_N (N.of_nat (7 * n + 1));
     entropy_pos := 0;
     clock := "20240101-120000";
     fault := f |}.

Definition demo_rules : list json :=
  [ JDict [("type", JStr "shell_history")]; JDict [("type", JStr "ssh_keys")] ].

Definition demo_discoverer (rules : list json) : FileDiscoverer :=
  {| get_setting := fun k =>
       if String.eqb k "files_to_include" then Some (JList rules) else None;
     home_dir := demo_home |}.

(** The body of the [try] block of [main]: a manager is constructed and
    run. *)
Definition construct_and_run (lib : pylib) (args_config : string) : M unit :=
  let! manager := BackupManager_init args_config in
  run_backup lib manager.

Definition demo_staging : path := ["/"; "tmp"; "my_backup_staging"].

Definition demo_archive : path :=
  ["/"; "tmp"; "my_backups"; "backup-20240101-120000.tar.gz"].

(** The manager [BackupManager.__init__] returns in the small world when
    [pw] is typed twice. *)
Definition demo_manager : BackupManager :=
  {| config_data := manager_config_data;
     discoverer := {| get_setting := config_data_get manager_config_data;
                      home_dir := demo_home |};
     encryptor := Some {| key := SHA256.digest (bytes_of_string "pw") |};
     archiver := {| archive_format := "tar.gz" |};
     staging_path := demo_staging |}.

(** A library whose JSON codec knows one document: [text] is what every
    value is written as, and the only text that parses. *)
Definition json_lib (text : bytes) (parsed : json) : pylib :=
  {| aead_encrypt := aead_encrypt toy_lib;
     aead_decrypt := aead_decrypt toy_lib;
     glob := glob toy_lib;
     rglob := rglob toy_lib;
     tar_image := tar_image toy_lib;
     zip_image := zip_image toy_lib;
     json_loads := fun t => if bool_decide (t = text) then Some parsed else None;
     json_dumps := fun _ => text |}.

Definition demo_config : path := ["/"; "tmp"; "config.json"].

(** ** Vocabulary of the properties *)

(** Two outcomes agree when both raise, or both return the same value. *)
Definition agree {A} (o1 o2 : outcome A) : Prop :=
  match o1, o2 with
  | Return a, Return b => a = b
  | Raise _, Raise _ => True
  | _, _ => False
  end.

(** [step R m]: every run of [m], whether it returns or raises, takes
    the world along [R]. *)
Definition step {A : Type} (R : relation world) (m : M A) : Prop :=
  ∀ w w' r, m w = (w', r) → R w w'.

(** The file system is the same in both worlds. *)
Definition same_fs (w w' : world) : Prop := fs w' = fs w.

(** [grows S m m']: from [m] to [m'] nothing changed outside the paths
    in [S], and every directory is still a directory. *)
Definition grows (S : list string → Prop) (m m' : gmap (list string) node) : Prop :=
  (∀ p, ¬ S p → m' !! p = m !! p) ∧ (∀ p, m !! p = Some Dir → m' !! p = Some Dir).

Definition evolves (S : list string → Prop) (w w' : world) : Prop :=
  home w' = home w ∧ clock w' = clock w ∧ grows S (fs w) (fs w').

(** [touches S w w']: from [w] to [w'] no path outside [S] has changed;
    paths in [S] may have appeared, changed or gone. *)
Definition touches (S : list string → Prop) (w w' : world) : Prop :=
  home w' = home w ∧ clock w' = clock w ∧ ∀ q, ¬ S q → fs w' !! q = fs w !! q.

(** Nothing has been read from the terminal. *)
Definition same_tty (w w' : world) : Prop := tty w' = tty w.

(** Every path. *)
Definition anywhere : list string → Prop := fun _ => True.

(** The paths on the branch of [root]: above it, or below it. *)
Definition on_branch (root p : list string) : Prop :=
  root `prefix_of` p ∨ p `prefix_of` root.

(** What follows the [mkdir] in [BackupManager.__init__]. *)
Definition after_mkdir : M BackupManager :=
  let config_data := manager_config_data in
  let! discoverer := FileDiscoverer_init (config_data_get config_data) in
  let! passphrase :=
    (if encryption_passphrase_prompt config_data then
       let! passphrase := getpass in
       let! confirm_passphrase := getpass in
       if negb (String.eqb passphrase confirm_passphrase)
       then raise (ValueError "Passphrases do not match.")
       else ret (Some passphrase)
     else ret None) in
  let! encryptor :=
    match passphrase with
    | Some (String _ _ as passphrase) =>
        let! e := FileEncryptor_init passphrase in ret (Some e)
    | _ => ret None
    end in
  let! archiver := Archiver_init (cd_archive_format config_data) in
  ret {| config_data := config_data;
         discoverer := discoverer;
         encryptor := encryptor;
         archiver := archiver;
         staging_path := Path (temporary_staging_path config_data) |}.

(** The directories [BackupManager.__init__] makes sure exist. *)
Definition dest_dirs : list path :=
  [ ["/"]; ["/"; "tmp"]; ["/"; "tmp"; "my_backups"] ].

(** * Properties *)

#[local] Set Warnings "-clear-no-such-hyp".

(** ** Test vectors and examples *)

Example sha256_constants :
  length SHA256.primes = 64
  ∧ List.last SHA256.primes 0%N = 311%N
  ∧ hd 0%N SHA256.K = 0x428a2f98%N
  ∧ List.last SHA256.K 0%N = 0xc67178f2%N
  ∧ SHA256.ha SHA256.H0 = 0x6a09e667%N.
Proof. vm_compute. done. Qed.

Example sha256_abc :
  hexdigest (SHA256.digest (bytes_of_string "abc"))
  = "ba7816bf8f01cfea414140de5dae2223b00361a396177a9cb410ff61f20015ad".
Proof. vm_compute. reflexivity. Qed.

Example sha256_empty :
  hexdigest (SHA256.digest [])
  = "e3b0c44298fc1c149afbf4c8996fb92427ae41e4649b934ca495991b7852b855".
Proof. vm_compute. reflexivity. Qed.

Example sha256_two_blocks :
  hexdigest (SHA256.digest (replicate 70 "a"%byte))
  = "6bd5e5034855a11241f0dee8fc72850ffd9955b28347a86428b5fa19119f6ad0".
Proof. vm_compute. reflexivity. Qed.

Example Path_normalises :
  Path "/tmp//my_backups/./x/" = ["/"; "tmp"; "my_backups"; "x"]
  ∧ Path "a/b" = ["a"; "b"]
  ∧ Path "/tmp/my_backup_staging/" // ["."; "ssh"] = ["/"; "tmp"; "my_backup_staging"; "."; "ssh"]
  ∧ parent (Path "/tmp/a") = ["/"; "tmp"].
Proof. vm_compute. done. Qed.


(** ** hashlib, os.urandom *)

Lemma digest_length (data : bytes) : length (SHA256.digest data) = 32.
Proof.
  unfold SHA256.digest, SHA256.word_bytes, SHA256.be_bytes.
  rewrite !length_app, !length_map, !length_rev, !length_seq. reflexivity.
Qed.

Lemma urandom_spec (n : nat) (w : world) :
  ∃ nonce, urandom n w = (set_entropy_pos (entropy_pos w + n) w, Return nonce)
           ∧ length nonce = n.
Proof.
  eexists. split; [reflexivity|]. by rewrite length_map, length_seq.
Qed.

Example demo_encrypt_decrypt :
  let self := {| key := SHA256.digest (bytes_of_string "correct-horse") |} in
  let w0 := demo_world [] None in
  let w1 := (encrypt_file toy_lib self (demo_home ++ [".bash_history"]) ["/"; "tmp"; "blob"] w0).1 in
  let w2 := (decrypt_file toy_lib self ["/"; "tmp"; "blob"] ["/"; "tmp"; "out"] w1).1 in
  fs w2 !! ["/"; "tmp"; "out"] = Some (File (bytes_of_string "ls"))
  ∧ length <$> file_data (fs w1) ["/"; "tmp"; "blob"] = Some 16.
Proof. vm_compute. done. Qed.

(** ** lib/encryptor.py *)

Lemma io_no_fault (w : world) : fault w = None → io w = (w, Return tt).
Proof. unfold io. by intros ->. Qed.

Lemma p_is_dir_true (m : gmap path node) (p : path) :
  p_is_dir m p = true → m !! p = Some Dir.
Proof. unfold p_is_dir. by destruct (m !! p) as [[|]|]. Qed.

Lemma flip_bit_app_r (i : nat) (l1 l2 : bytes) :
  8 * length l1 ≤ i → flip_bit i (l1 ++ l2) = l1 ++ flip_bit (i - 8 * length l1) l2.
Proof.
  intros Hi. unfold flip_bit.
  assert (Hdiv : (i - 8 * length l1) `div` 8 = i `div` 8 - length l1).
  { replace i with ((i - 8 * length l1) + length l1 * 8) at 2 by lia.
    rewrite Nat.div_add by lia. lia. }
  assert (Hmod : (i - 8 * length l1) `mod` 8 = i `mod` 8).
  { replace i with ((i - 8 * length l1) + length l1 * 8) at 2 by lia.
    by rewrite Nat.Div0.mod_add. }
  rewrite Hdiv, Hmod. apply alter_app_r_alt.
  apply Nat.div_le_lower_bound; lia.
Qed.

Section encryptor_facts.
Context (lib : pylib).

(** What a run of [encrypt_file] without I/O faults leaves behind. *)
Lemma encrypt_file_ok (self : FileEncryptor) (input output : path) (w : world) (p : bytes) :
  fault w = None →
  fs w !! input = Some (File p) →
  input ≠ output →
  fs w !! output ≠ Some Dir →
  p_is_dir (fs w) (parent output) = true →
  let nonce := map (entropy w) (seq (entropy_pos w) 12) in
  encrypt_file lib self input output w
  = (set_fs (insert output (File (nonce ++ aead_encrypt lib (key self) nonce p)))
            (set_entropy_pos (entropy_pos w + 12) w),
     Return tt).
Proof.
  intros Hf Hin Hne Hout Hpar%p_is_dir_true nonce.
  unfold encrypt_file, bind, urandom, open_rb, open_wb, try_except, read_from, bind,
    close_wb.
  rewrite !io_no_fault by done. simpl. rewrite Hin.
  rewrite io_no_fault by done. simpl.
  destruct (fs w !! output) as [[d|]|] eqn:Ho; try done; rewrite Hpar.
  all: rewrite io_no_fault by done; simpl.
  all: rewrite lookup_insert_ne by done; rewrite Hin; simpl.
  all: rewrite lookup_insert_eq.
  all: unfold set_fs; simpl; f_equal; f_equal; by rewrite insert_insert_eq.
Qed.

(** What a run of [decrypt_file] without I/O faults does. *)
Lemma decrypt_file_ok (self : FileEncryptor) (input output : path) (w : world) (data : bytes) :
  fault w = None →
  fs w !! input = Some (File data) →
  input ≠ output →
  fs w !! output ≠ Some Dir →
  p_is_dir (fs w) (parent output) = true →
  decrypt_file lib self input output w
  = match AESGCM_decrypt lib (key self) (take 12 data) (drop 12 data) with
    | Return plaintext => (set_fs (insert output (File plaintext)) w, Return tt)
    | Raise e => (set_fs (insert output (File [])) w, Raise e)
    end.
Proof.
  intros Hf Hin Hne Hout Hpar%p_is_dir_true.
  unfold decrypt_file, bind, open_rb, open_wb, read_n, read_from, bind, lift, close_wb.
  rewrite !io_no_fault by done. simpl. rewrite Hin.
  rewrite io_no_fault by done. simpl.
  destruct (fs w !! output) as [[d|]|] eqn:Ho; try done; rewrite Hpar.
  all: rewrite !io_no_fault by done; simpl.
  all: rewrite lookup_insert_ne by done; rewrite Hin; simpl.
  all: rewrite io_no_fault by done; simpl.
  all: rewrite lookup_insert_ne by done; rewrite Hin; simpl.
  all: destruct (AESGCM_decrypt _ _ _ _); [|done].
  all: simpl; rewrite lookup_insert_eq.
  all: unfold set_fs; simpl; f_equal; f_equal; by rewrite insert_insert_eq.
Qed.

End encryptor_facts.

(** The stand-in AEAD of [toy_lib] honours both contracts. *)

Lemma flip_byte_changes (j : nat) (b : byte) : flip_byte j b ≠ b.
Proof.
  unfold flip_byte.
  assert (Hj : j `mod` 8 < 8) by (apply Nat.mod_upper_bound; lia).
  destruct (j `mod` 8) as [|[|[|[|[|[|[|[|]]]]]]]]; try lia;
    destruct b; vm_compute; discriminate.
Qed.

Lemma alter_changes {A} (f : A → A) (j : nat) (l : list A) :
  (∀ x, f x ≠ x) → j < length l → alter f j l ≠ l.
Proof.
  intros Hf Hj Heq.
  destruct (lookup_lt_is_Some_2 l j Hj) as [x Hx].
  assert (Hl : alter f j l !! j = Some (f x)) by (by rewrite list_lookup_alter_eq, Hx).
  rewrite Heq, Hx in Hl. injection Hl as Hl. by apply (Hf x).
Qed.

Lemma half_of_double (n : nat) : (n + n) `div` 2 = n.
Proof. replace (n + n) with (n * 2) by lia. by apply Nat.div_mul. Qed.

Lemma halves_decrypt_double (p : bytes) : halves_decrypt (p ++ p) = Some p.
Proof.
  unfold halves_decrypt.
  rewrite length_app, half_of_double.
  rewrite take_app_length. by rewrite bool_decide_eq_true_2.
Qed.

Lemma halves_decrypt_flipped (p : bytes) (i : nat) :
  i < 8 * length (p ++ p) → halves_decrypt (flip_bit i (p ++ p)) = None.
Proof.
  intros Hi. unfold halves_decrypt, flip_bit.
  set (f := flip_byte (i `mod` 8)). set (j := i `div` 8).
  assert (Hj : j < length p + length p).
  { rewrite length_app in Hi. apply Nat.Div0.div_lt_upper_bound; lia. }
  rewrite length_alter.
  rewrite length_app, half_of_double.
  assert (Hf : ∀ x, f x ≠ x) by (intros x; apply flip_byte_changes).
  destruct (decide (j < length p)) as [Hlt|Hge].
  - rewrite alter_app_l by done.
    rewrite take_app_length' by (by rewrite length_alter).
    rewrite bool_decide_eq_false_2; [done|].
    intros Heq. apply app_inv_head in Heq. by apply (alter_changes f j p).
  - rewrite alter_app_r_alt by lia.
    rewrite take_app_length.
    rewrite bool_decide_eq_false_2; [done|].
    intros Heq. apply app_inv_head in Heq. symmetry in Heq.
    apply (alter_changes f (j - length p) p); [done|lia|done].
Qed.

Lemma toy_lib_aead_correct : aead_correct toy_lib.
Proof. intros k n p _ _. apply halves_decrypt_double. Qed.

Lemma toy_lib_aead_rejects_flips : aead_rejects_flips toy_lib.
Proof. intros k n p i _ _ Hi. by apply halves_decrypt_flipped. Qed.

Section cipher_engine.
Context (lib : pylib).

(** C2 (round trip).  For every passphrase, the key derived from it and
    every file content [p], the empty one included: encrypting the file
    into a blob and decrypting the blob, with no I/O fault and with the
    blob kept apart from the input and the output, both succeed and the
    output file holds exactly [p].  AES-GCM enters through its
    correctness contract. *)
Theorem decrypt_encrypt_round_trip
    (passphrase : string) (w : world) (input blob output : path) (p : bytes) :
  aead_correct lib →
  fault w = None →
  fs w !! input = Some (File p) →
  input ≠ blob → blob ≠ output →
  fs w !! blob ≠ Some Dir → p_is_dir (fs w) (parent blob) = true →
  fs w !! output ≠ Some Dir → p_is_dir (fs w) (parent output) = true →
  ∃ self w1 w2,
    FileEncryptor_init passphrase w = (w, Return self)
    ∧ encrypt_file lib self input blob w = (w1, Return tt)
    ∧ decrypt_file lib self blob output w1 = (w2, Return tt)
    ∧ fs w2 !! output = Some (File p).
Proof.
  intros Hc Hf Hin Hib Hbo Hb Hbp Ho Hop.
  set (self := {| key := SHA256.digest (bytes_of_string passphrase) |}).
  set (nonce := map (entropy w) (seq (entropy_pos w) 12)).
  assert (Hn : length nonce = 12) by (unfold nonce; by rewrite length_map, length_seq).
  pose proof (encrypt_file_ok lib self input blob w p Hf Hin Hib Hb Hbp) as He.
  cbv zeta in He. fold nonce in He.
  set (w1 := set_fs _ _) in He.
  assert (Hpb : parent output ≠ blob).
  { intros Heq. rewrite Heq in Hop. unfold p_is_dir in Hop.
    destruct (fs w !! blob) as [[|]|]; done. }
  pose proof (decrypt_file_ok lib self blob output w1
                (nonce ++ aead_encrypt lib (key self) nonce p)) as Hd.
  rewrite take_app_length', drop_app_length' in Hd by done.
  unfold AESGCM_decrypt in Hd. rewrite Hn in Hd. simpl in Hd.
  rewrite Hc in Hd by (done || apply digest_length).
  exists self, w1, (set_fs (insert output (File p)) w1).
  split; [done|]. split; [done|]. split.
  - apply Hd; subst w1; simpl; try done.
    + by rewrite lookup_insert_eq.
    + by rewrite lookup_insert_ne.
    + unfold p_is_dir in *. by rewrite lookup_insert_ne.
  - simpl. by rewrite lookup_insert_eq.
Qed.

(** C3 (tamper).  After a successful [encrypt_file], flipping any one bit
    of the blob behind the 96-bit nonce, that is in the ciphertext or in
    the tag, makes [decrypt_file] raise the authentication error of the
    AEAD ([InvalidTag]); nothing is written to the output file, which is
    left empty.  AES-GCM enters through its contract that a ciphertext
    with a flipped bit is rejected. *)
Theorem flipped_blob_fails_authentication
    (passphrase : string) (w : world) (input blob output : path) (p : bytes) :
  aead_rejects_flips lib →
  fault w = None →
  fs w !! input = Some (File p) →
  input ≠ blob → blob ≠ output →
  fs w !! blob ≠ Some Dir → p_is_dir (fs w) (parent blob) = true →
  fs w !! output ≠ Some Dir → p_is_dir (fs w) (parent output) = true →
  ∃ self w1 data,
    FileEncryptor_init passphrase w = (w, Return self)
    ∧ encrypt_file lib self input blob w = (w1, Return tt)
    ∧ fs w1 !! blob = Some (File data)
    ∧ ∀ i, 96 ≤ i < 8 * length data →
        ∃ w2,
          decrypt_file lib self blob output
            (set_fs (insert blob (File (flip_bit i data))) w1)
          = (w2, Raise InvalidTag)
          ∧ fs w2 !! output = Some (File []).
Proof.
  intros Hr Hf Hin Hib Hbo Hb Hbp Ho Hop.
  set (self := {| key := SHA256.digest (bytes_of_string passphrase) |}).
  set (nonce := map (entropy w) (seq (entropy_pos w) 12)).
  assert (Hn : length nonce = 12) by (unfold nonce; by rewrite length_map, length_seq).
  pose proof (encrypt_file_ok lib self input blob w p Hf Hin Hib Hb Hbp) as He.
  cbv zeta in He. fold nonce in He.
  set (ct := aead_encrypt lib (key self) nonce p) in He.
  set (w1 := set_fs _ _) in He.
  assert (Hpb : parent output ≠ blob).
  { intros Heq. rewrite Heq in Hop. unfold p_is_dir in Hop.
    destruct (fs w !! blob) as [[|]|]; done. }
  exists self, w1, (nonce ++ ct).
  split; [done|]. split; [done|]. split.
  { subst w1. simpl. by rewrite lookup_insert_eq. }
  intros i [Hlo Hhi]. rewrite length_app, Hn in Hhi.
  rewrite flip_bit_app_r by (rewrite Hn; lia). rewrite Hn.
  set (w1' := set_fs _ w1).
  pose proof (decrypt_file_ok lib self blob output w1'
                (nonce ++ flip_bit (i - 8 * 12) ct)) as Hd.
  rewrite take_app_length', drop_app_length' in Hd by done.
  unfold AESGCM_decrypt in Hd. rewrite Hn in Hd.
  change ((12 <? 8) || (128 <? 12)) with false in Hd. cbv iota in Hd.
  assert (Hrej : aead_decrypt lib (key self) nonce (flip_bit (i - 8 * 12) ct) = None).
  { apply Hr; [apply digest_length|done|fold ct; lia]. }
  rewrite Hrej in Hd.
  eexists. split.
  - apply Hd; subst w1' w1; simpl; try done.
    + by rewrite lookup_insert_eq.
    + by rewrite !lookup_insert_ne.
    + unfold p_is_dir in *. by rewrite !lookup_insert_ne.
  - simpl. by rewrite lookup_insert_eq.
Qed.

(** C10.  Whenever [decrypt_file] raises because the tag check failed,
    the output file exists and is empty: it was created, or truncated,
    when it was opened, before the tag was verified. *)
Theorem decrypt_failure_leaves_empty_output
    (self : FileEncryptor) (input output : path) (w w' : world) :
  decrypt_file lib self input output w = (w', Raise InvalidTag) →
  fs w' !! output = Some (File []).
Proof.
  unfold decrypt_file, bind, open_rb, open_wb, read_n, read_from, bind, lift,
    close_wb, AESGCM_decrypt, io.
  intros H.
  repeat (case_match; simplify_eq/=); by rewrite ?lookup_insert_eq.
Qed.

End cipher_engine.

(** ** lib/discoverer.py *)

Lemma agree_refl {A} (o : outcome A) : agree o o.
Proof. by destruct o. Qed.

Lemma agree_trans {A} (o1 o2 o3 : outcome A) : agree o1 o2 → agree o2 o3 → agree o1 o3.
Proof. destruct o1, o2, o3; simpl; congruence || done. Qed.

Section discovery_facts.
Context (lib : pylib) (m : gmap path node) (histfile_env : option string).

(** A rule only ever adds to the set, and what it adds does not depend
    on what is already there. *)
Lemma glob_patterns_union (d : path) (r : json) (ps : list json) (acc : gset path) :
  glob_patterns lib m d r ps acc
  = let? s := glob_patterns lib m d r ps ∅ in Return (acc ∪ s).
Proof.
  revert acc. induction ps as [|p ps IH]; intros acc; simpl.
  { f_equal. set_solver. }
  destruct p; try done.
  destruct (if truthy r then _ else _) as [found|e]; simpl; [|done].
  rewrite IH, (IH (∅ ∪ _)).
  destruct (glob_patterns lib m d r ps ∅); simpl; [|done].
  f_equal. set_solver.
Qed.

Lemma discover_rule_union (self : FileDiscoverer) (rule : json) (acc : gset path) :
  discover_rule lib m histfile_env self rule acc
  = let? s := discover_rule lib m histfile_env self rule ∅ in Return (acc ∪ s).
Proof.
  unfold discover_rule.
  destruct (subscript rule "type") as [type|e]; simpl; [|done].
  destruct (is_str type "shell_history"); [simpl; f_equal; set_solver|].
  destruct (is_str type "ssh_keys"); [simpl; f_equal; set_solver|].
  destruct (is_str type "gpg_keys"); [simpl; f_equal; set_solver|].
  destruct (is_str type "custom_path").
  { destruct (subscript rule "path") as [p|]; simpl; [|done].
    destruct (Path_of p) as [p0|]; simpl; [|done].
    destruct (_ && _); simpl; f_equal; set_solver. }
  destruct (is_str type "custom_directory"); [|simpl; f_equal; set_solver].
  destruct (subscript rule "path") as [p|]; simpl; [|done].
  destruct (Path_of p) as [p0|]; simpl; [|done].
  destruct (p_is_dir _ _); simpl; [|simpl; f_equal; set_solver].
  destruct (py_iter _) as [ps|]; simpl; [|done].
  rewrite glob_patterns_union.
  destruct (glob_patterns _ _ _ _ _ ∅); simpl; [f_equal; set_solver|done].
Qed.

Lemma discover_rules_union (self : FileDiscoverer) (rules : list json) (acc : gset path) :
  discover_rules lib m histfile_env self rules acc
  = let? s := discover_rules lib m histfile_env self rules ∅ in Return (acc ∪ s).
Proof.
  revert acc. induction rules as [|rule rules IH]; intros acc; simpl.
  { f_equal. set_solver. }
  rewrite discover_rule_union.
  destruct (discover_rule lib m histfile_env self rule ∅) as [s|e]; simpl; [|done].
  rewrite (IH (acc ∪ s)), (IH s).
  destruct (discover_rules lib m histfile_env self rules ∅); simpl; [|done].
  f_equal. set_solver.
Qed.

(** Only the home directory of a discoverer matters to its rules. *)
Lemma discover_rule_home (self self' : FileDiscoverer) (rule : json) (acc : gset path) :
  home_dir self' = home_dir self →
  discover_rule lib m histfile_env self' rule acc
  = discover_rule lib m histfile_env self rule acc.
Proof.
  intros Hh. unfold discover_rule, get_shell_history_files, get_ssh_key_files,
    get_gpg_key_files. by rewrite Hh.
Qed.

Lemma discover_rules_home (self self' : FileDiscoverer) (rules : list json) (acc : gset path) :
  home_dir self' = home_dir self →
  discover_rules lib m histfile_env self' rules acc
  = discover_rules lib m histfile_env self rules acc.
Proof.
  intros Hh. revert acc. induction rules as [|r rules IH]; intros acc; simpl; [done|].
  rewrite (discover_rule_home self self') by done.
  destruct (discover_rule lib m histfile_env self r acc); simpl; [apply IH|done].
Qed.

(** The order of the rules does not matter. *)
Lemma discover_rules_permutation (self : FileDiscoverer) (rules rules' : list json) :
  rules ≡ₚ rules' →
  ∀ acc, agree (discover_rules lib m histfile_env self rules acc)
               (discover_rules lib m histfile_env self rules' acc).
Proof.
  induction 1 as [|x l l' Hp IH|x y l|l l' l'' Hp1 IH1 Hp2 IH2]; intros acc.
  - done.
  - simpl. destruct (discover_rule lib m histfile_env self x acc); simpl; [apply IH|done].
  - simpl.
    rewrite (discover_rule_union self y acc), (discover_rule_union self x acc).
    destruct (discover_rule lib m histfile_env self y ∅) as [sy|ey] eqn:Hy;
      destruct (discover_rule lib m histfile_env self x ∅) as [sx|ex] eqn:Hx; simpl.
    + rewrite (discover_rule_union self x (acc ∪ sy)),
        (discover_rule_union self y (acc ∪ sx)), Hx, Hy. simpl.
      replace (acc ∪ sx ∪ sy) with (acc ∪ sy ∪ sx) by set_solver.
      apply agree_refl.
    + by rewrite (discover_rule_union self x (acc ∪ sy)), Hx.
    + by rewrite (discover_rule_union self y (acc ∪ sx)), Hy.
    + done.
  - eapply agree_trans; [apply IH1|apply IH2].
Qed.

Lemma discover_all_files_no_dup (self : FileDiscoverer) (files : list path) :
  discover_all_files lib m histfile_env self = Return files → NoDup files.
Proof.
  unfold discover_all_files. intros H.
  destruct (py_iter _) as [rules|]; simpl in H; [|done].
  destruct (discover_rules _ _ _ _ _ _) as [s|]; simpl in H; [|done].
  injection H as <-. apply NoDup_filter, NoDup_elements.
Qed.

Lemma discover_all_files_regular (self : FileDiscoverer) (files : list path) :
  discover_all_files lib m histfile_env self = Return files →
  ∀ f, f ∈ files → p_is_file m f = true.
Proof.
  unfold discover_all_files. intros H f Hf.
  destruct (py_iter _) as [rules|]; simpl in H; [|done].
  destruct (discover_rules _ _ _ _ _ _) as [s|]; simpl in H; [|done].
  injection H as <-. apply list_elem_of_filter in Hf as [Hf _].
  by apply Is_true_true.
Qed.


(** When discovery raises, it raises for every order of the rules. *)
Lemma discovery_raises_for_every_order
    (self self' : FileDiscoverer) (rules rules' : list json) :
  get_setting self "files_to_include" = Some (JList rules) →
  get_setting self' "files_to_include" = Some (JList rules') →
  home_dir self' = home_dir self →
  rules ≡ₚ rules' →
  raised (discover_all_files lib m histfile_env self)
  = raised (discover_all_files lib m histfile_env self').
Proof.
  intros Hr Hr' Hh Hp.
  unfold discover_all_files. rewrite Hr, Hr'. simpl.
  pose proof (discover_rules_permutation self rules rules' Hp ∅) as Ha.
  rewrite (discover_rules_home self self') by done.
  destruct (discover_rules lib m histfile_env self rules ∅),
           (discover_rules lib m histfile_env self rules' ∅); simpl in *; done.
Qed.

End discovery_facts.

Example demo_discovery :
  discover_all_files toy_lib demo_fs None (demo_discoverer demo_rules)
  = Return [ demo_home ++ [".bash_history"];
             demo_home ++ [".ssh"; "id_rsa.pub"];
             demo_home ++ [".ssh"; "id_rsa"] ].
Proof. vm_compute. reflexivity. Qed.


(** ** Reasoning about computations *)

Lemma bind_inv {A B} (m : M A) (k : A → M B) (w w' : world) (r : outcome B) :
  bind m k w = (w', r) →
  (∃ e, m w = (w', Raise e) ∧ r = Raise e)
  ∨ (∃ w1 a, m w = (w1, Return a) ∧ k a w1 = (w', r)).
Proof.
  unfold bind. destruct (m w) as [w1 [a|e]]; intros H.
  - right. by exists w1, a.
  - left. exists e. by inversion H.
Qed.

Section step.
Context (R : relation world) `{!PreOrder R}.
(** [R] does not look at the terminal, the random source or the fault
    counter. *)
Context (R_ambient : ∀ w w', fs w' = fs w → home w' = home w → clock w' = clock w → R w w').

Lemma step_ret {A} (a : A) : step R (ret a).
Proof. intros w w' r H. by inversion H. Qed.

Lemma step_raise {A} (e : exn) : step R (@raise A e).
Proof. intros w w' r H. by inversion H. Qed.

Lemma step_lift {A} (o : outcome A) : step R (lift o).
Proof. intros w w' r H. by inversion H. Qed.

Lemma step_get_world : step R get_world.
Proof. intros w w' r H. by inversion H. Qed.

Lemma step_io : step R io.
Proof.
  intros w w' r H. unfold io in H.
  destruct (fault w) as [[|n]|]; inversion H; subst; by apply R_ambient.
Qed.

Lemma step_getpass : step R getpass.
Proof.
  intros w w' r H. unfold getpass in H.
  destruct (tty w); inversion H; subst; by apply R_ambient.
Qed.

Lemma step_urandom (n : nat) : step R (urandom n).
Proof. intros w w' r H. inversion H; subst. by apply R_ambient. Qed.

Lemma step_bind {A B} (m : M A) (k : A → M B) :
  step R m → (∀ a, step R (k a)) → step R (bind m k).
Proof.
  intros Hm Hk w w' r H.
  apply bind_inv in H as [(e & H & _)|(w1 & a & H1 & H2)].
  - by eapply Hm.
  - etrans; [by eapply Hm|by eapply Hk].
Qed.

Lemma step_try_finally {A} (m : M A) (c : M unit) :
  step R m → step R c → step R (try_finally m c).
Proof.
  intros Hm Hc w w' r H. unfold try_finally in H.
  destruct (m w) as [w1 r1] eqn:H1. destruct (c w1) as [w2 [[]|e]] eqn:H2.
  all: inversion H; subst; etrans; [by eapply Hm|by eapply Hc].
Qed.

Lemma step_try_except {A} (m : M A) (h : exn → M A) :
  step R m → (∀ e, step R (h e)) → step R (try_except m h).
Proof.
  intros Hm Hh w w' r H. unfold try_except in H.
  destruct (m w) as [w1 [a|e]] eqn:H1.
  - inversion H; subst. by eapply Hm.
  - etrans; [by eapply Hm|by eapply Hh].
Qed.

Lemma step_for_each {A} (l : list A) (body : A → M unit) :
  (∀ x, step R (body x)) → step R (for_each l body).
Proof.
  intros Hb. induction l as [|x l IH]; simpl.
  - apply step_ret.
  - apply step_bind; [apply Hb|done].
Qed.

Lemma step_open_rb (p : path) : step R (open_rb p).
Proof.
  unfold open_rb. apply step_bind; [apply step_io|]. intros _ w w' r H.
  destruct (fs w !! p) as [[|]|]; by inversion H.
Qed.

Lemma step_read_from (p : path) (pos : nat) : step R (read_from p pos).
Proof.
  unfold read_from. apply step_bind; [apply step_io|]. intros _ w w' r H.
  destruct (fs w !! p) as [[|]|]; by inversion H.
Qed.

Lemma step_read_n (p : path) (n : nat) : step R (read_n p n).
Proof.
  unfold read_n. apply step_bind; [apply step_io|]. intros _ w w' r H.
  destruct (fs w !! p) as [[|]|]; by inversion H.
Qed.

End step.

(** ** File-system primitives *)

Lemma mkdirs_lookup (l : list path) (m : gmap path node) (p : path) :
  mkdirs l m !! p = if decide (p ∈ l) then Some Dir else m !! p.
Proof.
  induction l as [|q l IH].
  - by rewrite decide_False by set_solver.
  - change (mkdirs (q :: l) m) with (<[q := Dir]> (mkdirs l m)).
    destruct (decide (q = p)) as [->|Hne].
    + rewrite lookup_insert_eq. by rewrite decide_True by set_solver.
    + rewrite lookup_insert_ne by done. rewrite IH.
      destruct (decide (p ∈ l)); [by rewrite decide_True by set_solver|].
      by rewrite decide_False by set_solver.
Qed.

(** [mkdir] either fails, with an error other than [ValueError] and
    without touching anything, or makes the directories. *)
Lemma mkdir_parents_cases (exist_ok : bool) (p : path) (w w' : world) (r : outcome unit) :
  mkdir_parents exist_ok p w = (w', r) →
  (fs w' = fs w ∧ tty w' = tty w ∧ ∃ e, r = Raise e ∧ ∀ msg, e ≠ ValueError msg)
  ∨ (r = Return tt ∧ fs w' = mkdirs (ancestors_and_self p) (fs w) ∧ tty w' = tty w
     ∧ List.find (p_is_file (fs w)) (ancestors_and_self p) = None
     ∧ (exist_ok = false → fs w !! p = None)).
Proof.
  unfold mkdir_parents. intros H.
  apply bind_inv in H as [(e & H & ->)|(w1 & [] & H1 & H2)].
  - left. unfold io in H. destruct (fault w) as [[|n]|]; inversion H; subst.
    repeat split; try done. by eexists.
  - assert (fs w1 = fs w ∧ tty w1 = tty w) as [Hfs Htty].
    { unfold io in H1. destruct (fault w) as [[|n]|]; inversion H1; by subst. }
    rewrite Hfs in H2.
    destruct (List.find _ _) as [q|] eqn:Hfind.
    + left. inversion H2; subst. repeat split; try done.
      eexists. split; [done|]. intros msg. by case_decide.
    + destruct (p_exists (fs w) p && negb exist_ok) eqn:Hex.
      * left. inversion H2; subst. repeat split; try done. by eexists.
      * right. inversion H2; subst. simpl. rewrite Hfs. repeat split; try done.
        intros ->. unfold p_exists in Hex. destruct (fs w !! p); [done|done].
Qed.

(** ** lib/manager.py: construction *)

Lemma dest_dirs_eq :
  ancestors_and_self (Path (backup_destination_path manager_config_data)) = dest_dirs.
Proof. reflexivity. Qed.

Lemma BackupManager_init_unfold {A} (config_path : A) :
  BackupManager_init config_path
  = (do! mkdir_parents true (Path (backup_destination_path manager_config_data)) in
     after_mkdir).
Proof. reflexivity. Qed.

(** What [after_mkdir] does with what is typed. *)
Lemma after_mkdir_typed (w : world) (p1 p2 : string) (rest : list string) :
  tty w = p1 :: p2 :: rest →
  after_mkdir w
  = if negb (String.eqb p1 p2)
    then (set_tty rest w, Raise (ValueError "Passphrases do not match."))
    else (set_tty rest w,
          Return {| config_data := manager_config_data;
                    discoverer := {| get_setting := config_data_get manager_config_data;
                                     home_dir := home w |};
                    encryptor :=
                      match p1 with
                      | String _ _ =>
                          Some {| key := SHA256.digest (bytes_of_string p1) |}
                      | EmptyString => None
                      end;
                    archiver := {| archive_format := "tar.gz" |};
                    staging_path := ["/"; "tmp"; "my_backup_staging"] |}).
Proof.
  intros Htty.
  unfold after_mkdir, bind, FileDiscoverer_init, bind, get_world, getpass, ret. simpl.
  rewrite Htty. simpl.
  destruct (String.eqb p1 p2); simpl; [|done].
  destruct p1; reflexivity.
Qed.

Lemma mkdir_parents_ok (p : path) (w : world) :
  fault w ≠ Some 0 →
  List.find (p_is_file (fs w)) (ancestors_and_self p) = None →
  ∃ w1, mkdir_parents true p w = (w1, Return tt)
        ∧ fs w1 = mkdirs (ancestors_and_self p) (fs w)
        ∧ tty w1 = tty w ∧ home w1 = home w.
Proof.
  intros Hf Hfind. unfold mkdir_parents, bind, io.
  destruct (fault w) as [[|n]|]; [done| |]; simpl; rewrite Hfind.
  all: rewrite andb_false_r; by eexists.
Qed.



(** C4, as the code has it.  The key is the SHA-256 digest of the encoded
    passphrase and nothing else: it is 256 bits long, constructing the
    encryptor draws no randomness and leaves the world as it is, and so
    two runs with the same passphrase derive the same key. *)
Theorem key_is_digest_of_passphrase (passphrase : string) (w : world) :
  ∃ self, FileEncryptor_init passphrase w = (w, Return self)
          ∧ key self = SHA256.digest (bytes_of_string passphrase)
          ∧ length (key self) = 32
          ∧ ∀ w2, (FileEncryptor_init passphrase w2).2 = Return self.
Proof.
  exists {| key := SHA256.digest (bytes_of_string passphrase) |}.
  split; [reflexivity|]. split; [reflexivity|].
  split; [exact (digest_length _)|reflexivity].
Qed.

(** ** How the staging and archiving steps change the file system *)

#[local] Instance grows_preorder (S : path → Prop) : PreOrder (grows S).
Proof.
  split.
  - by intros m.
  - intros m1 m2 m3 [Hf1 Hd1] [Hf2 Hd2]. split.
    + intros p Hp. by rewrite Hf2, Hf1.
    + intros p Hp. by apply Hd2, Hd1.
Qed.

#[local] Instance evolves_preorder (S : path → Prop) : PreOrder (evolves S).
Proof.
  split.
  - by intros w.
  - intros w1 w2 w3 (Hh1 & Hc1 & Hg1) (Hh2 & Hc2 & Hg2).
    split; [congruence|]. split; [congruence|]. by etrans.
Qed.

Lemma evolves_ambient (S : path → Prop) (w w' : world) :
  fs w' = fs w → home w' = home w → clock w' = clock w → evolves S w w'.
Proof. intros Hfs Hh Hc. split; [done|]. split; [done|]. by rewrite Hfs. Qed.

Lemma grows_insert_file (S : path → Prop) (m : gmap path node) (p : path) (data : bytes) :
  S p → m !! p ≠ Some Dir → grows S m (<[p := File data]> m).
Proof.
  intros HS Hp. split.
  - intros q Hq. rewrite lookup_insert_ne; [done|]. by intros ->.
  - intros q Hq. rewrite lookup_insert_ne; [done|]. intros ->. by rewrite Hq in Hp.
Qed.

Lemma grows_mkdirs (S : path → Prop) (m : gmap path node) (l : list path) :
  (∀ q, q ∈ l → S q) → grows S m (mkdirs l m).
Proof.
  intros HS. split.
  - intros p Hp. rewrite mkdirs_lookup. case_decide; [|done]. by destruct Hp; apply HS.
  - intros p Hp. rewrite mkdirs_lookup. by case_decide.
Qed.

Create HintDb step.

#[local] Hint Resolve evolves_ambient : step.
#[local] Hint Extern 1 (PreOrder _) => typeclasses eauto : step.
#[local] Hint Resolve step_ret step_raise step_lift step_get_world step_io step_getpass
  step_urandom step_open_rb step_read_from step_read_n : step.

(** One step into a sequence of two computations. *)
Ltac step_bind := apply step_bind; [typeclasses eauto| |].
Ltac step_auto := solve [auto with step].

Section evolves.
Context (lib : pylib) (S : path → Prop).

Lemma step_open_wb (p : path) : S p → step (evolves S) (open_wb p).
Proof.
  intros HS. unfold open_wb. step_bind; [step_auto|]. intros _ w w' r H.
  destruct (fs w !! p) as [[|]|] eqn:Hp; [| |].
  2: by inversion H.
  all: destruct (fs w !! parent p) as [[|]|]; inversion H; subst; try done.
  all: split; [done|]; split; [done|]; apply grows_insert_file; [done|by rewrite Hp].
Qed.

Lemma step_close_wb (p : path) (data : bytes) : S p → step (evolves S) (close_wb p data).
Proof.
  intros HS w w' r H. unfold close_wb in H.
  destruct (fs w !! p) as [[|]|] eqn:Hp; inversion H; subst; try done.
  split; [done|]; split; [done|]; apply grows_insert_file; [done|by rewrite Hp].
Qed.

Lemma step_mkdir_parents (exist_ok : bool) (p : path) :
  (∀ q, q ∈ ancestors_and_self p → S q) → step (evolves S) (mkdir_parents exist_ok p).
Proof.
  intros HS. unfold mkdir_parents. step_bind; [step_auto|]. intros _ w w' r H.
  destruct (List.find _ _); [by inversion H|].
  destruct (_ && _); inversion H; subst; [done|].
  split; [done|]; split; [done|]. by apply grows_mkdirs.
Qed.

Lemma step_encrypt_file (self : FileEncryptor) (input output : path) :
  S output → step (evolves S) (encrypt_file lib self input output).
Proof.
  intros HS. unfold encrypt_file.
  step_bind; [step_auto|intros nonce].
  step_bind; [step_auto|intros _].
  step_bind; [by apply step_open_wb|intros _].
  step_bind; [|intros plaintext; by apply step_close_wb].
  apply step_try_except; [typeclasses eauto|step_auto|intros e].
  step_bind; [by apply step_close_wb|step_auto].
Qed.

Lemma step_copy2 (src dst : path) :
  S dst → S (dst ++ [name src]) → step (evolves S) (copy2 src dst).
Proof.
  intros HS1 HS2. unfold copy2.
  step_bind; [step_auto|intros w].
  assert (S (if p_is_dir (fs w) dst then dst ++ [name src] else dst)) as HS
    by (by destruct (p_is_dir _ _)).
  step_bind; [case_decide; step_auto|intros _].
  step_bind; [step_auto|intros _].
  step_bind; [by apply step_open_wb|intros _].
  step_bind; [step_auto|intros data; by apply step_close_wb].
Qed.

Lemma step_tar_add (archive : path) (members : list (path * node)) (file_path arcname : path) :
  S archive → step (evolves S) (tar_add lib archive members file_path arcname).
Proof.
  intros HS. unfold tar_add.
  step_bind; [step_auto|intros _].
  step_bind; [step_auto|intros w].
  destruct (fs w !! file_path); [|step_auto].
  step_bind; [by apply step_close_wb|step_auto].
Qed.

Lemma step_tar_add_all (archive staging_area : path) (files : list path)
    (members : list (path * node)) :
  S archive → step (evolves S) (tar_add_all lib archive staging_area files members).
Proof.
  intros HS. revert members. induction files as [|f files IH]; intros members; simpl.
  - step_auto.
  - step_bind; [case_bool_decide; step_auto|intros arcname].
    step_bind; [by apply step_tar_add|intros members'; apply IH].
Qed.

Lemma step_compress_files (self : Archiver) (files : list path) (archive staging_area : path) :
  S archive → step (evolves S) (compress_files lib self files archive staging_area).
Proof.
  intros HS. unfold compress_files. destruct (String.eqb _ _); [|step_auto].
  step_bind; [by apply step_open_wb|intros _].
  step_bind; [by apply step_close_wb|intros _].
  step_bind; [by apply step_tar_add_all|intros members; by apply step_close_wb].
Qed.

End evolves.

(** ** Removing a tree *)

Lemma rmtree_lookup_root (p : path) (m : gmap path node) :
  filter (fun kv : path * node => ¬ p `prefix_of` kv.1) m !! p = None.
Proof.
  apply map_lookup_filter_None. right. intros x _ Hn. by apply Hn.
Qed.

Lemma rmtree_lookup_outside (p q : path) (m : gmap path node) :
  ¬ p `prefix_of` q →
  filter (fun kv : path * node => ¬ p `prefix_of` kv.1) m !! q = m !! q.
Proof.
  intros Hq. destruct (m !! q) as [x|] eqn:Hm.
  - by apply map_lookup_filter_Some.
  - apply map_lookup_filter_None. by left.
Qed.

Lemma rmtree_returns (p : path) (w w' : world) :
  rmtree p w = (w', Return tt) →
  fs w' = filter (fun kv : path * node => ¬ p `prefix_of` kv.1) (fs w)
  ∧ home w' = home w ∧ clock w' = clock w.
Proof.
  unfold rmtree. destruct (fs w !! p) as [[|]|]; intros H; by inversion H.
Qed.

Lemma rmtree_dir (p : path) (w : world) :
  fs w !! p = Some Dir →
  rmtree p w = (set_fs (filter (fun kv : path * node => ¬ p `prefix_of` kv.1)) w, Return tt).
Proof. unfold rmtree. by intros ->. Qed.

Section staging_root.
Context (lib : pylib).


Lemma step_stage_file_anywhere (self : BackupManager) (f : path) :
  step (evolves anywhere) (stage_file lib self f).
Proof.
  unfold stage_file. step_bind; [step_auto|intros w].
  step_bind; [by apply step_mkdir_parents|intros _].
  step_bind; [|step_auto].
  destruct (encryptor self); [by apply step_encrypt_file|by apply step_copy2].
Qed.

Lemma step_stage_all_anywhere (self : BackupManager) (files staged : list path) :
  step (evolves anywhere) (stage_all lib self files staged).
Proof.
  revert staged. induction files as [|f files IH]; intros staged; simpl; [step_auto|].
  step_bind; [apply step_stage_file_anywhere|intros d; apply IH].
Qed.

Lemma step_archive_staged_anywhere (self : BackupManager) (staged : list path) :
  step (evolves anywhere) (archive_staged lib self staged).
Proof.
  unfold archive_staged. step_bind; [step_auto|intros w]. by apply step_compress_files.
Qed.

(** Leaving the [try] block of [run_backup], by whichever way, removes
    a staging root that is a directory. *)
Lemma cleanup_removes (self : BackupManager) (w : world) :
  fs w !! staging_path self = Some Dir →
  ∃ w', _cleanup_staging_area self w = (w', Return tt)
        ∧ fs w' !! staging_path self = None.
Proof.
  intros Hd. unfold _cleanup_staging_area, bind, get_world, p_exists.
  rewrite Hd, (rmtree_dir _ _ Hd). eexists. split; [done|]. apply rmtree_lookup_root.
Qed.

Lemma setup_staging_cases (self : BackupManager) (w w' : world) (r : outcome unit) :
  staging_path self ≠ [] →
  p_is_file (fs w) (staging_path self) = false →
  _setup_staging_area self w = (w', r) →
  (raised r = true ∧ fs w' !! staging_path self = None)
  ∨ (r = Return tt ∧ fs w' !! staging_path self = Some Dir).
Proof.
  intros Hne Hnf H. unfold _setup_staging_area in H.
  apply bind_inv in H as [(e & H & _)|(w0 & w0' & H0 & H)]; [by inversion H|].
  inversion H0; subst w0 w0'. clear H0.
  apply bind_inv in H as [(e & H & ->)|(w1 & [] & H1 & H)].
  { unfold p_exists, p_is_file in *.
    destruct (fs w !! staging_path self) as [[|]|] eqn:Hs;
      [done|by rewrite (rmtree_dir _ _ Hs) in H|by inversion H]. }
  assert (fs w1 !! staging_path self = None) as Hgone.
  { unfold p_exists, p_is_file in *.
    destruct (fs w !! staging_path self) as [[|]|] eqn:Hs; [done| |].
    - rewrite (rmtree_dir _ _ Hs) in H1. inversion H1; subst. apply rmtree_lookup_root.
    - by inversion H1; subst. }
  apply mkdir_parents_cases in H
    as [(Hfs & _ & e & -> & _)|(-> & Hfs & _)].
  - left. by rewrite Hfs.
  - right. split; [done|]. rewrite Hfs, mkdirs_lookup.
    rewrite decide_True; [done|].
    unfold ancestors_and_self. apply list_elem_of_fmap.
    exists (length (staging_path self)). split; [by rewrite firstn_all|].
    apply elem_of_seq. destruct (staging_path self); [done|simpl; lia].
Qed.

End staging_root.

Section cleanup_invariant.
Context (lib : pylib).


End cleanup_invariant.

(** ** Staging stays on the branch of the staging root *)

Lemma on_branch_prefix_of_below (root rel q : path) :
  q `prefix_of` root ++ rel → on_branch root q.
Proof.
  intros Hq. unfold on_branch.
  destruct (prefix_weak_total root q (root ++ rel)) as [?|?]; auto.
  by apply prefix_app_r.
Qed.

Lemma parent_prefix (p : path) : parent p `prefix_of` p.
Proof.
  unfold parent.
  assert (removelast p `prefix_of` p) as Hr.
  { destruct (decide (p = [])) as [->|Hne]; [done|].
    rewrite (app_removelast_last "" Hne) at 2. by apply prefix_app_r. }
  repeat case_match; done.
Qed.

Lemma ancestors_are_prefixes (p q : path) : q ∈ ancestors_and_self p → q `prefix_of` p.
Proof.
  unfold ancestors_and_self. intros (n & -> & _)%list_elem_of_fmap. apply prefix_take.
Qed.

Section staging_branch.
Context (lib : pylib).

Lemma stage_file_on_branch (self : BackupManager) (f : path) (w w' : world)
    (r : outcome path) :
  is_absolute (relative_path (home w) f) = false →
  stage_file lib self f w = (w', r) →
  evolves (on_branch (staging_path self)) w w'.
Proof.
  intros Hrel H. unfold stage_file in H.
  apply bind_inv in H as [(e & H & _)|(w0 & a & H0 & H)]; [by inversion H|].
  inversion H0; subst w0 a; clear H0.
  unfold joinpath in H. rewrite Hrel in H.
  set (dest := staging_path self ++ relative_path (home w) f) in H.
  assert (on_branch (staging_path self) dest) as Hdest
    by (left; by apply prefix_app_r).
  cut (step (evolves (on_branch (staging_path self)))
    (do! mkdir_parents true (parent dest) in
     do! match encryptor self with
         | Some enc => encrypt_file lib enc f dest
         | None => copy2 f dest
         end in ret dest)).
  { intros Hst. exact (Hst _ _ _ H). }
  step_bind; [|intros _].
  { apply step_mkdir_parents. intros q Hq%ancestors_are_prefixes.
    apply (on_branch_prefix_of_below _ (relative_path (home w) f)).
    etrans; [done|apply parent_prefix]. }
  step_bind; [|step_auto].
  destruct (encryptor self); [by apply step_encrypt_file|].
  apply step_copy2; [done|]. left. by do 2 apply prefix_app_r.
Qed.

Lemma stage_all_on_branch (self : BackupManager) (files staged : list path)
    (w w' : world) (r : outcome (list path)) :
  (∀ f, f ∈ files → is_absolute (relative_path (home w) f) = false) →
  stage_all lib self files staged w = (w', r) →
  evolves (on_branch (staging_path self)) w w'.
Proof.
  revert staged w. induction files as [|f files IH]; intros staged w Hrel H; simpl in H.
  - by inversion H.
  - apply bind_inv in H as [(e & H & _)|(w1 & d & H1 & H)].
    + eapply stage_file_on_branch; [|done]. apply Hrel. by left.
    + assert (evolves (on_branch (staging_path self)) w w1) as Hstep.
      { eapply stage_file_on_branch; [|done]. apply Hrel. by left. }
      etrans; [done|]. eapply IH; [|done].
      intros f' Hf'. destruct Hstep as (-> & _). apply Hrel. by right.
Qed.

Lemma setup_staging_returns (self : BackupManager) (w w' : world) :
  staging_path self ≠ [] →
  _setup_staging_area self w = (w', Return tt) →
  fs w' !! staging_path self = Some Dir
  ∧ home w' = home w
  ∧ ∀ p, ¬ on_branch (staging_path self) p → fs w' !! p = fs w !! p.
Proof.
  intros Hne H. unfold _setup_staging_area in H.
  apply bind_inv in H as [(e & H & ?)|(w0 & w0' & H0 & H)]; [done|].
  inversion H0; subst w0 w0'. clear H0.
  apply bind_inv in H as [(e & _ & ?)|(w1 & [] & H1 & H)]; [done|].
  assert (home w1 = home w
          ∧ ∀ p, ¬ on_branch (staging_path self) p → fs w1 !! p = fs w !! p)
    as [Hh1 Hf1].
  { destruct (p_exists _ _).
    - apply rmtree_returns in H1 as (-> & -> & _). split; [done|].
      intros p Hp. apply rmtree_lookup_outside. intros ?. apply Hp. by left.
    - by inversion H1; subst. }
  assert (step (evolves (on_branch (staging_path self)))
            (mkdir_parents false (staging_path self))) as Hm.
  { apply step_mkdir_parents. intros q Hq%ancestors_are_prefixes. by right. }
  destruct (Hm _ _ _ H) as (Hh & _ & Hframe & _).
  apply mkdir_parents_cases in H as [(_ & _ & e & ? & _)|(_ & Hfs & _)]; [done|].
  split; [|split; [congruence|]].
  - rewrite Hfs, mkdirs_lookup. rewrite decide_True; [done|].
    unfold ancestors_and_self. apply list_elem_of_fmap.
    exists (length (staging_path self)). split; [by rewrite firstn_all|].
    apply elem_of_seq. destruct (staging_path self); [done|simpl; lia].
  - intros p Hp. by rewrite Hframe, Hf1.
Qed.


End staging_branch.

(** ** Staging without an encryptor *)

#[local] Instance same_fs_preorder : PreOrder same_fs.
Proof. split; [by intros w|intros w1 w2 w3; unfold same_fs; congruence]. Qed.

Lemma same_fs_ambient (w w' : world) :
  fs w' = fs w → home w' = home w → clock w' = clock w → same_fs w w'.
Proof. by intros ? _ _. Qed.

(** A [copy2] that returns has put the bytes of the source, as they are,
    into the target. *)
Lemma copy2_returns (src dst : path) (w w' : world) (data : bytes) :
  fs w !! src = Some (File data) →
  copy2 src dst w = (w', Return tt) →
  let target := if p_is_dir (fs w) dst then dst ++ [name src] else dst in
  fs w' !! target = Some (File data)
  ∧ ∀ q, q ≠ target → fs w' !! q = fs w !! q.
Proof.
  intros Hsrc H target. unfold copy2 in H.
  apply bind_inv in H as [(e & _ & ?)|(w0 & a & H0 & H)]; [done|].
  inversion H0; subst w0 a; clear H0. fold target in H.
  apply bind_inv in H as [(e & _ & ?)|(w1 & [] & H1 & H)]; [done|].
  assert (src ≠ target ∧ w1 = w) as [Hne ->]
    by (case_decide; by inversion H1).
  apply bind_inv in H as [(e & _ & ?)|(w2 & [] & H2 & H)]; [done|].
  assert (fs w2 = fs w) as Hfs2.
  { exact (step_open_rb same_fs same_fs_ambient src _ _ _ H2). }
  apply bind_inv in H as [(e & _ & ?)|(w3 & [] & H3 & H)]; [done|].
  assert (fs w3 = <[target := File []]> (fs w)) as Hfs3.
  { unfold open_wb in H3.
    apply bind_inv in H3 as [(e & _ & ?)|(w2' & [] & Hio & H3)]; [done|].
    assert (fs w2' = fs w2) as Hfs2'.
    { exact (step_io same_fs same_fs_ambient _ _ _ Hio). }
    rewrite Hfs2', Hfs2 in H3.
    destruct (fs w !! target) as [[|]|]; try done.
    all: destruct (fs w !! parent target) as [[|]|]; inversion H3; subst; simpl.
    all: by rewrite Hfs2', Hfs2. }
  apply bind_inv in H as [(e & _ & ?)|(w4 & got & H4 & H)]; [done|].
  assert (fs w4 = fs w3 ∧ got = data) as [Hfs4 ->].
  { unfold read_from in H4.
    apply bind_inv in H4 as [(e & _ & ?)|(w3' & [] & Hio & H4)]; [done|].
    assert (fs w3' = fs w3) as Hfs3'.
    { exact (step_io same_fs same_fs_ambient _ _ _ Hio). }
    rewrite Hfs3', Hfs3, lookup_insert_ne, Hsrc in H4 by done.
    by inversion H4; subst. }
  unfold close_wb in H. rewrite Hfs4, Hfs3, lookup_insert_eq in H.
  inversion H; subst. simpl. rewrite Hfs4, Hfs3. split.
  - by rewrite lookup_insert_eq.
  - intros q Hq. by rewrite !lookup_insert_ne.
Qed.

Section empty_passphrase.
Context (lib : pylib).


End empty_passphrase.

(** ** The program on the small worlds *)

Example demo_manager_constructed :
  (BackupManager_init "config.json" (demo_world ["pw"; "pw"] None)).2 = Return demo_manager.
Proof. vm_compute. reflexivity. Qed.

Example demo_backup_succeeds :
  let r := construct_and_run toy_lib "config.json" (demo_world ["pw"; "pw"] None) in
  r.2 = Return tt
  ∧ p_is_file (fs r.1) demo_archive = true
  ∧ fs r.1 !! demo_staging = None.
Proof. vm_compute. done. Qed.

(** Witness of C2: the round trip of the history file of the small world. *)
Lemma decrypt_encrypt_round_trip_witness :
  ∃ self w1 w2,
    FileEncryptor_init "correct-horse" (demo_world [] None)
    = (demo_world [] None, Return self)
    ∧ encrypt_file toy_lib self (demo_home ++ [".bash_history"]) ["/"; "tmp"; "blob"]
        (demo_world [] None) = (w1, Return tt)
    ∧ decrypt_file toy_lib self ["/"; "tmp"; "blob"] ["/"; "tmp"; "out"] w1 = (w2, Return tt)
    ∧ fs w2 !! ["/"; "tmp"; "out"] = Some (File (bytes_of_string "ls")).
Proof.
  apply (decrypt_encrypt_round_trip toy_lib "correct-horse" (demo_world [] None)
           (demo_home ++ [".bash_history"]) ["/"; "tmp"; "blob"] ["/"; "tmp"; "out"]
           (bytes_of_string "ls")).
  - exact toy_lib_aead_correct.
  - reflexivity.
  - vm_compute; reflexivity.
  - discriminate.
  - discriminate.
  - vm_compute; discriminate.
  - vm_compute; reflexivity.
  - vm_compute; discriminate.
  - vm_compute; reflexivity.
Defined.

(** The round trip of an empty file. *)
Example round_trip_of_empty_file :
  let self := {| key := SHA256.digest (bytes_of_string "") |} in
  let w1 := (encrypt_file toy_lib self ["/"; "tmp"; "empty"] ["/"; "tmp"; "blob"]
               (demo_world [] None)).1 in
  let r := decrypt_file toy_lib self ["/"; "tmp"; "blob"] ["/"; "tmp"; "out"] w1 in
  r.2 = Return tt
  ∧ fs r.1 !! ["/"; "tmp"; "out"] = Some (File []).
Proof. vm_compute. done. Qed.

(** Witness of C3: every flip behind the nonce of the blob of the history
    file is caught. *)
Lemma flipped_blob_fails_authentication_witness :
  ∃ self w1 data,
    FileEncryptor_init "correct-horse" (demo_world [] None)
    = (demo_world [] None, Return self)
    ∧ encrypt_file toy_lib self (demo_home ++ [".bash_history"]) ["/"; "tmp"; "blob"]
        (demo_world [] None) = (w1, Return tt)
    ∧ fs w1 !! ["/"; "tmp"; "blob"] = Some (File data)
    ∧ ∀ i, 96 ≤ i < 8 * length data →
        ∃ w2,
          decrypt_file toy_lib self ["/"; "tmp"; "blob"] ["/"; "tmp"; "out"]
            (set_fs (insert ["/"; "tmp"; "blob"] (File (flip_bit i data))) w1)
          = (w2, Raise InvalidTag)
          ∧ fs w2 !! ["/"; "tmp"; "out"] = Some (File []).
Proof.
  apply (flipped_blob_fails_authentication toy_lib "correct-horse" (demo_world [] None)
           (demo_home ++ [".bash_history"]) ["/"; "tmp"; "blob"] ["/"; "tmp"; "out"]
           (bytes_of_string "ls")).
  - exact toy_lib_aead_rejects_flips.
  - reflexivity.
  - vm_compute; reflexivity.
  - discriminate.
  - discriminate.
  - vm_compute; discriminate.
  - vm_compute; reflexivity.
  - vm_compute; discriminate.
  - vm_compute; reflexivity.
Defined.

(** Witness of C10: a blob that fails the tag check is decrypted onto the
    history file, which ends up empty. *)
Lemma decrypt_failure_leaves_empty_output_witness :
  let self := {| key := SHA256.digest (bytes_of_string "correct-horse") |} in
  let w := set_fs (insert ["/"; "tmp"; "blob"] (File (bytes_of_string "0123456789abXY")))
                  (demo_world [] None) in
  fs w !! (demo_home ++ [".bash_history"]) = Some (File (bytes_of_string "ls"))
  ∧ fs (decrypt_file toy_lib self ["/"; "tmp"; "blob"] (demo_home ++ [".bash_history"]) w).1
      !! (demo_home ++ [".bash_history"]) = Some (File []).
Proof.
  intros self w. split; [vm_compute; reflexivity|].
  apply (decrypt_failure_leaves_empty_output toy_lib self ["/"; "tmp"; "blob"]
           (demo_home ++ [".bash_history"]) w).
  vm_compute. reflexivity.
Defined.



Example key_backup_returns_without_temp_dir :
  let r := (let! kb := KeyBackup_init "/home/u/.ssh/id_rsa" "/home/u/.gnupg/secring.gpg"
                         "secret" "keys_backup.zip" in
            KeyBackup_run_backup toy_lib kb) (demo_world [] None) in
  r.2 = Return tt
  ∧ fs r.1 !! (demo_home ++ ["temp_keys_backup"]) = None
  ∧ p_is_file (fs r.1) (demo_home ++ ["keys_backup.zip"]) = true.
Proof. vm_compute. done. Qed.


(** Counterexample to C4 as stated: two runs that draw different random
    bytes derive the same key from the same passphrase. *)
Lemma same_passphrase_same_key :
  let w1 := demo_world ["correct-horse"; "correct-horse"] None in
  let w2 := set_entropy_pos 500 w1 in
  let r1 := BackupManager_init "config.json" w1 in
  let r2 := BackupManager_init "config.json" w2 in
  (urandom 16 w1).2 ≠ (urandom 16 w2).2
  ∧ (∃ m1 m2 k, r1.2 = Return m1 ∧ r2.2 = Return m2
       ∧ encryptor m1 = Some {| key := k |} ∧ encryptor m2 = Some {| key := k |}
       ∧ hexdigest k = "9dca666eb54730714630d1519264a7bf1eeaad00b8f2edc90d3ecbfad928d163").
Proof.
  split; [vm_compute; discriminate|].
  eexists _, _, _. vm_compute. done.
Qed.









(** * Further properties of the code *)

(** ** lib/encryptor.py *)

Section encryptor_more.
Context (lib : pylib).

Lemma step_decrypt_file (S : path → Prop) (self : FileEncryptor) (input output : path) :
  S output → step (evolves S) (decrypt_file lib self input output).
Proof.
  intros HS. unfold decrypt_file.
  step_bind; [step_auto|intros _].
  step_bind; [by apply step_open_wb|intros _].
  step_bind; [step_auto|intros nonce].
  step_bind; [step_auto|intros ciphertext].
  step_bind; [step_auto|intros plaintext; by apply step_close_wb].
Qed.

(** X1.  Whatever [encrypt_file] and [decrypt_file] do, return or raise,
    they change no path of the file system other than their output path:
    the input (when it is another path) and every other file stay as they
    were. *)
Theorem cipher_touches_only_output
    (self : FileEncryptor) (input output : path) (w w' : world) (r : outcome unit) :
  encrypt_file lib self input output w = (w', r)
  ∨ decrypt_file lib self input output w = (w', r) →
  ∀ q, q ≠ output → fs w' !! q = fs w !! q.
Proof.
  intros H q Hq.
  assert (evolves (fun p => p = output) w w') as (_ & _ & Hframe & _).
  { destruct H as [H|H].
    - by apply (step_encrypt_file lib (fun p => p = output) self input output eq_refl w w' r).
    - by apply (step_decrypt_file (fun p => p = output) self input output eq_refl w w' r). }
  by apply Hframe.
Qed.

(** X2.  Encrypting a file onto itself loses its content: the file is
    truncated when it is opened for writing, before it is read, so it ends
    up holding the nonce and the encryption of the empty plaintext. *)
Theorem encrypt_in_place_loses_plaintext
    (self : FileEncryptor) (p : path) (w : world) (data : bytes) :
  fault w = None →
  fs w !! p = Some (File data) →
  fs w !! parent p = Some Dir →
  let nonce := map (entropy w) (seq (entropy_pos w) 12) in
  ∃ w', encrypt_file lib self p p w = (w', Return tt)
        ∧ fs w' !! p = Some (File (nonce ++ aead_encrypt lib (key self) nonce [])).
Proof.
  intros Hf Hp Hpar nonce.
  unfold encrypt_file, bind, urandom, open_rb, open_wb, try_except, read_from, bind,
    close_wb.
  rewrite !io_no_fault by done. simpl. rewrite Hp.
  rewrite io_no_fault by done. simpl. rewrite Hp, Hpar.
  rewrite io_no_fault by done. simpl. rewrite lookup_insert_eq. simpl.
  rewrite lookup_insert_eq. eexists. split; [done|]. simpl. by rewrite lookup_insert_eq.
Qed.

(** X3.  Decrypting a file onto itself fails and empties it: the file is
    truncated before the nonce is read, the empty nonce is refused with a
    [ValueError], and the blob is gone. *)
Theorem decrypt_in_place_empties_file
    (self : FileEncryptor) (p : path) (w : world) (data : bytes) :
  fault w = None →
  fs w !! p = Some (File data) →
  fs w !! parent p = Some Dir →
  ∃ w', decrypt_file lib self p p w
        = (w', Raise (ValueError "Nonce must be between 8 and 128 bytes"))
        ∧ fs w' !! p = Some (File []).
Proof.
  intros Hf Hp Hpar.
  unfold decrypt_file, bind, open_rb, open_wb, read_n, read_from, bind, lift, close_wb.
  rewrite !io_no_fault by done. simpl. rewrite Hp.
  rewrite io_no_fault by done. simpl. rewrite Hp, Hpar.
  rewrite !io_no_fault by done. simpl. rewrite lookup_insert_eq. simpl.
  rewrite io_no_fault by done. simpl. rewrite lookup_insert_eq. simpl.
  eexists. split; [done|]. simpl. by rewrite lookup_insert_eq.
Qed.


End encryptor_more.

(** ** lib/discoverer.py, lib/gpg_files.py *)

Lemma parent_snoc (l : path) (x : string) : l ≠ [] → parent (l ++ [x]) = l.
Proof.
  intros Hl. rewrite <- (removelast_last l x) at 2.
  assert (2 ≤ length (l ++ [x])) as Hlen.
  { rewrite length_app. destruct l; [done|simpl; lia]. }
  destruct (l ++ [x]) as [|a [|b p]]; simpl in Hlen; try lia.
  unfold parent. repeat case_match; done.
Qed.

Lemma iterdir_parent (m : gmap path node) (d p : path) : p ∈ iterdir m d → parent p = d.
Proof. unfold iterdir. by intros [[? _] _]%list_elem_of_filter. Qed.

Section discovery_more.
Context (lib : pylib) (m : gmap path node) (histfile_env : option string).

(** X5.  A rule is read through its entries [type], [path], [patterns]
    and [recursive] only: two rules that agree on these four add the same
    files.  In particular the [enabled] entry of a rule is not looked at,
    and a rule with [enabled] set to false is evaluated like any other. *)
Theorem rule_is_read_through_four_entries
    (self : FileDiscoverer) (d d' : list (string * json)) (acc : gset path) :
  (∀ k, k ∈ ["type"; "path"; "patterns"; "recursive"] → dict_get d k = dict_get d' k) →
  discover_rule lib m histfile_env self (JDict d) acc
  = discover_rule lib m histfile_env self (JDict d') acc.
Proof.
  intros H. unfold discover_rule, subscript, dict_item.
  rewrite <- (H "type"), <- (H "path"), <- (H "patterns"), <- (H "recursive")
    by set_solver.
  done.
Qed.

Lemma discover_rules_app (self : FileDiscoverer) (l1 l2 : list json) (acc : gset path) :
  discover_rules lib m histfile_env self (l1 ++ l2) acc
  = let? s := discover_rules lib m histfile_env self l1 acc in
    discover_rules lib m histfile_env self l2 s.
Proof.
  revert acc. induction l1 as [|r l1 IH]; intros acc; simpl; [done|].
  destruct (discover_rule lib m histfile_env self r acc); simpl; [apply IH|done].
Qed.

(** X6.  A rule without a [type] entry, or one that is not a dictionary,
    makes discovery raise, wherever it stands among the rules and
    whatever the other rules are; nothing is discovered then. *)
Theorem rule_without_type_aborts_discovery
    (self : FileDiscoverer) (before after : list json) (rule : json) :
  get_setting self "files_to_include" = Some (JList (before ++ rule :: after)) →
  raised (subscript rule "type") = true →
  raised (discover_all_files lib m histfile_env self) = true.
Proof.
  intros Hr Hbad. unfold discover_all_files. rewrite Hr. simpl.
  rewrite discover_rules_app.
  destruct (discover_rules lib m histfile_env self before ∅) as [s|]; simpl; [|done].
  unfold discover_rule. by destruct (subscript rule "type").
Qed.

(** X7.  A rule whose type is none of the five known ones is skipped
    without a word: discovery returns what it returns without that rule. *)
Theorem rule_of_unknown_type_is_skipped
    (self self' : FileDiscoverer) (before after : list json)
    (d : list (string * json)) (type : json) :
  get_setting self "files_to_include" = Some (JList (before ++ JDict d :: after)) →
  get_setting self' "files_to_include" = Some (JList (before ++ after)) →
  home_dir self' = home_dir self →
  dict_get d "type" = Some type →
  (∀ known, known ∈ ["shell_history"; "ssh_keys"; "gpg_keys"; "custom_path";
                      "custom_directory"] → is_str type known = false) →
  discover_all_files lib m histfile_env self
  = discover_all_files lib m histfile_env self'.
Proof.
  intros Hr Hr' Hh Ht Hunknown. unfold discover_all_files. rewrite Hr, Hr'. simpl.
  rewrite (discover_rules_home lib m histfile_env self self') by done.
  rewrite !discover_rules_app.
  destruct (discover_rules lib m histfile_env self before ∅) as [s|]; simpl; [|done].
  unfold discover_rule at 1, subscript, dict_item. rewrite Ht. simpl.
  rewrite !Hunknown by set_solver. done.
Qed.

(** X8.  The SSH rule is not recursive and is quiet about a missing
    directory: whatever it returns is a regular file that sits directly in
    the [.ssh] directory of the home directory, and that directory exists;
    so nothing is returned, and nothing raised, when it does not. *)
Theorem ssh_files_sit_directly_in_dot_ssh (self : FileDiscoverer) (f : path) :
  f ∈ get_ssh_key_files m self →
  parent f = home_dir self ++ [".ssh"]
  ∧ p_is_file m f = true
  ∧ p_is_dir m (home_dir self ++ [".ssh"]) = true.
Proof.
  unfold get_ssh_key_files.
  change (home_dir self // [".ssh"]) with (home_dir self ++ [".ssh"]).
  intros Hf. destruct (p_is_dir m _); [|by apply elem_of_nil in Hf].
  apply list_elem_of_filter in Hf as [Hfile Hin]. split_and!.
  - by apply iterdir_parent in Hin.
  - by apply Is_true_true.
  - done.
Qed.

(** X9.  The GPG rule and the helper that lists the GnuPG targets look at
    different directories ([.gpg] and [.gnupg]): no file the rule returns
    is one of the targets of the helper, so the rule never backs up what
    the helper points at. *)
Theorem gpg_rule_misses_the_gnupg_targets (self : FileDiscoverer) (f : path) :
  f ∈ get_gpg_key_files m self →
  f ∉ get_potential_gpg_backup_targets m (home_dir self).
Proof.
  unfold get_gpg_key_files, get_potential_gpg_backup_targets.
  change (home_dir self // [".gpg"]) with (home_dir self ++ [".gpg"]).
  change (home_dir self // [".gnupg"]) with (home_dir self ++ [".gnupg"]).
  intros Hf Ht.
  destruct (p_is_dir m (home_dir self ++ [".gpg"])); [|by apply elem_of_nil in Hf].
  apply list_elem_of_filter in Hf as [_ Hin%iterdir_parent].
  destruct (negb _); [by apply elem_of_nil in Ht|].
  apply list_elem_of_fmap in Ht as (n & -> & Hn).
  assert (is_absolute [n] = false) as Hrel.
  { unfold gpg_target_names_relative in Hn.
    repeat (apply elem_of_cons in Hn as [->|Hn]; [done|]). by apply elem_of_nil in Hn. }
  unfold joinpath in Hin. rewrite Hrel in Hin.
  rewrite parent_snoc in Hin by (by destruct (home_dir self)).
  by apply app_inv_head in Hin.
Qed.

(** X10.  Listing the rules twice changes nothing: discovery over a rule
    list followed by itself returns, or raises, as over the list alone. *)
Theorem repeated_rules_change_nothing
    (self self' : FileDiscoverer) (rules : list json) :
  get_setting self "files_to_include" = Some (JList rules) →
  get_setting self' "files_to_include" = Some (JList (rules ++ rules)) →
  home_dir self' = home_dir self →
  agree (discover_all_files lib m histfile_env self')
        (discover_all_files lib m histfile_env self).
Proof.
  intros Hr Hr' Hh. unfold discover_all_files. rewrite Hr, Hr'. simpl.
  rewrite (discover_rules_home lib m histfile_env self self') by done.
  rewrite discover_rules_app.
  destruct (discover_rules lib m histfile_env self rules ∅) as [s|] eqn:Hs; simpl; [|done].
  rewrite discover_rules_union, Hs. simpl.
  by replace (s ∪ s) with s by set_solver.
Qed.

End discovery_more.

(** ** Runs of the further properties in the small world *)

Lemma cipher_touches_only_output_witness :
  let w := demo_world [] (Some 3) in
  fs (encrypt_file toy_lib {| key := [] |} (demo_home ++ [".bash_history"])
        ["/"; "tmp"; "blob"] w).1 !! ["/"; "tmp"; "empty"]
  = fs w !! ["/"; "tmp"; "empty"].
Proof.
  intros w.
  apply (cipher_touches_only_output toy_lib {| key := [] |} (demo_home ++ [".bash_history"])
           ["/"; "tmp"; "blob"] w _
           (encrypt_file toy_lib {| key := [] |} (demo_home ++ [".bash_history"])
              ["/"; "tmp"; "blob"] w).2).
  - left. apply surjective_pairing.
  - discriminate.
Defined.

Lemma encrypt_in_place_loses_plaintext_witness :
  let w := demo_world [] None in
  let p := demo_home ++ [".bash_history"] in
  let nonce := map (entropy w) (seq (entropy_pos w) 12) in
  ∃ w', encrypt_file toy_lib {| key := [] |} p p w = (w', Return tt)
        ∧ fs w' !! p = Some (File (nonce ++ aead_encrypt toy_lib [] nonce [])).
Proof.
  intros w p.
  apply (encrypt_in_place_loses_plaintext toy_lib {| key := [] |} p w (bytes_of_string "ls")).
  - reflexivity.
  - vm_compute; reflexivity.
  - vm_compute; reflexivity.
Defined.

Lemma decrypt_in_place_empties_file_witness :
  let w := demo_world [] None in
  let p := demo_home ++ [".ssh"; "id_rsa"] in
  ∃ w', decrypt_file toy_lib {| key := [] |} p p w
        = (w', Raise (ValueError "Nonce must be between 8 and 128 bytes"))
        ∧ fs w' !! p = Some (File []).
Proof.
  intros w p.
  apply (decrypt_in_place_empties_file toy_lib {| key := [] |} p w (bytes_of_string "PRIVATE")).
  - reflexivity.
  - vm_compute; reflexivity.
  - vm_compute; reflexivity.
Defined.


Lemma rule_is_read_through_four_entries_witness :
  discover_rule toy_lib demo_fs None (demo_discoverer [])
    (JDict [("type", JStr "ssh_keys"); ("enabled", JBool false)]) ∅
  = discover_rule toy_lib demo_fs None (demo_discoverer [])
      (JDict [("type", JStr "ssh_keys")]) ∅.
Proof.
  apply (rule_is_read_through_four_entries toy_lib demo_fs None (demo_discoverer [])
           [("type", JStr "ssh_keys"); ("enabled", JBool false)]
           [("type", JStr "ssh_keys")] ∅).
  intros k Hk.
  repeat (apply elem_of_cons in Hk as [->|Hk]; [reflexivity|]).
  by apply elem_of_nil in Hk.
Defined.

Lemma rule_without_type_aborts_discovery_witness :
  raised (discover_all_files toy_lib demo_fs None
            (demo_discoverer [ JDict [("type", JStr "ssh_keys")];
                               JDict [("path", JStr "~/notes")];
                               JDict [("type", JStr "shell_history")] ])) = true.
Proof.
  apply (rule_without_type_aborts_discovery toy_lib demo_fs None
           (demo_discoverer [ JDict [("type", JStr "ssh_keys")];
                              JDict [("path", JStr "~/notes")];
                              JDict [("type", JStr "shell_history")] ])
           [ JDict [("type", JStr "ssh_keys")] ]
           [ JDict [("type", JStr "shell_history")] ]
           (JDict [("path", JStr "~/notes")])).
  - reflexivity.
  - reflexivity.
Defined.

Lemma rule_of_unknown_type_is_skipped_witness :
  discover_all_files toy_lib demo_fs None
    (demo_discoverer [ JDict [("type", JStr "ssh_keys")];
                       JDict [("type", JStr "browser_profiles")] ])
  = discover_all_files toy_lib demo_fs None
      (demo_discoverer [ JDict [("type", JStr "ssh_keys")] ]).
Proof.
  apply (rule_of_unknown_type_is_skipped toy_lib demo_fs None
           (demo_discoverer [ JDict [("type", JStr "ssh_keys")];
                              JDict [("type", JStr "browser_profiles")] ])
           (demo_discoverer [ JDict [("type", JStr "ssh_keys")] ])
           [ JDict [("type", JStr "ssh_keys")] ] []
           [("type", JStr "browser_profiles")] (JStr "browser_profiles")).
  - reflexivity.
  - reflexivity.
  - reflexivity.
  - reflexivity.
  - intros known Hk.
    repeat (apply elem_of_cons in Hk as [->|Hk]; [reflexivity|]).
    by apply elem_of_nil in Hk.
Defined.

Lemma gpg_rule_misses_the_gnupg_targets_witness :
  let m := <[demo_home ++ [".gpg"] := Dir]>
             (<[demo_home ++ [".gpg"; "secring.gpg"] := File []]>
                (<[demo_home ++ [".gnupg"] := Dir]> demo_fs)) in
  demo_home ++ [".gpg"; "secring.gpg"] ∈ get_gpg_key_files m (demo_discoverer [])
  ∧ demo_home ++ [".gpg"; "secring.gpg"]
      ∉ get_potential_gpg_backup_targets m (home_dir (demo_discoverer [])).
Proof.
  intros m.
  assert (demo_home ++ [".gpg"; "secring.gpg"] ∈ get_gpg_key_files m (demo_discoverer []))
    as Hin.
  { apply list_elem_of_In. vm_compute. auto. }
  split; [exact Hin|].
  apply (gpg_rule_misses_the_gnupg_targets m (demo_discoverer [])
           (demo_home ++ [".gpg"; "secring.gpg"]) Hin).
Defined.

Lemma repeated_rules_change_nothing_witness :
  agree (discover_all_files toy_lib demo_fs None (demo_discoverer (demo_rules ++ demo_rules)))
        (discover_all_files toy_lib demo_fs None (demo_discoverer demo_rules)).
Proof.
  apply (repeated_rules_change_nothing toy_lib demo_fs None
           (demo_discoverer demo_rules) (demo_discoverer (demo_rules ++ demo_rules))
           demo_rules).
  - reflexivity.
  - reflexivity.
  - reflexivity.
Defined.

Lemma ssh_files_sit_directly_in_dot_ssh_witness :
  parent (demo_home ++ [".ssh"; "id_rsa"]) = demo_home ++ [".ssh"]
  ∧ p_is_file demo_fs (demo_home ++ [".ssh"; "id_rsa"]) = true
  ∧ p_is_dir demo_fs (demo_home ++ [".ssh"]) = true.
Proof.
  apply (ssh_files_sit_directly_in_dot_ssh demo_fs (demo_discoverer [])
           (demo_home ++ [".ssh"; "id_rsa"])).
  apply list_elem_of_In. vm_compute. auto.
Defined.

(** ** lib/config.py *)

Lemma try_except_ret_returns {A} (m : M A) (d : A) (w w' : world) (e : exn) :
  try_except m (fun _ => ret d) w ≠ (w', Raise e).
Proof. unfold try_except, ret. destruct (m w) as [w1 [a|e1]]; congruence. Qed.

Lemma dict_get_set (d : dict) (k k' : string) (v : json) :
  dict_get (dict_set d k v) k' = if String.eqb k' k then Some v else dict_get d k'.
Proof.
  induction d as [|[k0 v0] d IH]; simpl.
  - done.
  - destruct (String.eqb_spec k k0) as [->|Hk]; simpl.
    + by destruct (String.eqb_spec k' k0).
    + rewrite IH. destruct (String.eqb_spec k' k0) as [->|]; [|done].
      by destruct (String.eqb_spec k0 k) as [->|].
Qed.

Lemma recursive_update_keeps_keys (update_dict : json) (base_dict : dict) (k : string) :
  is_Some (dict_get base_dict k) → is_Some (dict_get (_recursive_update base_dict update_dict) k).
Proof.
  destruct update_dict as [| | | | |items]; simpl; try done.
  revert base_dict. induction items as [|[key value] items IH]; intros base_dict Hk; [done|].
  apply IH.
  repeat case_match; rewrite dict_get_set; by destruct (String.eqb k key).
Qed.

Lemma recursive_update_flat (items : list (string * json)) (base_dict : dict) (k : string) :
  NoDup items.*1 →
  (∀ key sub, key ∈ items.*1 → dict_get base_dict key ≠ Some (JDict sub)) →
  dict_get (_recursive_update base_dict (JDict items)) k
  = match dict_get items k with
    | Some v => Some v
    | None => dict_get base_dict k
    end.
Proof.
  simpl. revert base_dict.
  induction items as [|[key value] items IH]; intros base_dict Hnd Hflat; [done|].
  apply NoDup_cons in Hnd as [Hkey Hnd].
  assert (match value, dict_get base_dict key with
          | JDict _, Some (JDict sub) =>
              dict_set base_dict key (JDict (_recursive_update sub value))
          | _, _ => dict_set base_dict key value
          end = dict_set base_dict key value) as ->.
  { specialize (Hflat key). destruct value; try done.
    destruct (dict_get base_dict key) as [[]|] eqn:Hb; try done.
    by edestruct Hflat; [left|]. }
  rewrite IH; [|done|].
  - rewrite dict_get_set. simpl.
    destruct (String.eqb_spec k key) as [->|Hne]; [|done].
    destruct (dict_get items key) eqn:Hg; [|done].
    exfalso. apply Hkey. clear -Hg.
    induction items as [|[k0 v0] items IH]; [done|]. simpl in Hg.
    destruct (String.eqb_spec key k0) as [->|]; [left|right; auto].
  - intros key' sub Hin. rewrite dict_get_set.
    destruct (String.eqb_spec key' key) as [->|]; [done|]. apply Hflat. by right.
Qed.

Lemma mkdir_parents_keeps (exist_ok : bool) (p : path) (w w' : world) (r : outcome unit) :
  mkdir_parents exist_ok p w = (w', r) → fs w ⊆ fs w' ∧ home w' = home w.
Proof.
  intros H. split.
  - apply mkdir_parents_cases in H as [(-> & _)|(_ & -> & _ & Hfind & _)]; [done|].
    apply map_subseteq_spec. intros q n Hq. rewrite mkdirs_lookup.
    destruct (decide (q ∈ ancestors_and_self p)) as [Hin|]; [|done].
    apply list_elem_of_In in Hin. apply (find_none _ _ Hfind) in Hin.
    unfold p_is_file in Hin. rewrite Hq in Hin. by destruct n.
  - assert (step (evolves anywhere) (mkdir_parents exist_ok p)) as Hs
      by by apply step_mkdir_parents.
    by destruct (Hs _ _ _ H) as [? _].
Qed.

Lemma mkdir_parents_no_new_file (exist_ok : bool) (p q : path) (w w' : world)
    (r : outcome unit) :
  mkdir_parents exist_ok p w = (w', r) → p_is_file (fs w) q = false →
  p_is_file (fs w') q = false.
Proof.
  intros H Hq.
  apply mkdir_parents_cases in H as [(-> & _)|(_ & -> & _)]; [done|].
  unfold p_is_file. rewrite mkdirs_lookup. by destruct (decide _).
Qed.

Lemma write_new_keeps (p : path) (data : bytes) (w w' : world) (r : outcome unit) :
  p_is_file (fs w) p = false →
  (do! open_wb p in close_wb p data) w = (w', r) → fs w ⊆ fs w' ∧ home w' = home w.
Proof.
  unfold p_is_file, open_wb, close_wb, bind, io. intros Hp H.
  destruct (fs w !! p) as [[|]|] eqn:Hfs; [done| |].
  - repeat (case_match; simplify_eq/=); done.
  - assert (fs w ⊆ <[p:=File data]> (fs w)) by by apply insert_subseteq.
    assert (fs w ⊆ <[p:=File []]> (fs w)) by by apply insert_subseteq.
    repeat (case_match; simplify_eq/=); rewrite ?insert_insert_eq; done.
Qed.

Section config_more.
Context (lib : pylib).

#[local] Hint Resolve same_fs_ambient : step.

(** What [_load_and_merge_config] returns, and what it does to the file
    system. *)
Lemma load_and_merge_cases (p : path) (w w' : world) (r : outcome dict) :
  _load_and_merge_config lib p w = (w', r) →
  (∃ s, r = Return s
        ∧ (s = DEFAULT_CONFIG (home w)
           ∨ ∃ data u, fs w !! p = Some (File data) ∧ json_loads lib data = Some u
                       ∧ s = _recursive_update (DEFAULT_CONFIG (home w)) u))
  ∧ fs w ⊆ fs w'.
Proof.
  unfold _load_and_merge_config. unfold bind at 1, get_world at 1.
  intros H. apply bind_inv in H as [(e & H & _)|(w1 & s & H1 & H2)].
  { destruct (_ && _); by apply try_except_ret_returns in H. }
  apply bind_inv in H2 as [(e & H2 & _)|(w2 & [] & H2 & H3)].
  { by apply try_except_ret_returns in H2. }
  inversion H3; subst; clear H3.
  assert (fs w1 ⊆ fs w') as Hlog.
  { unfold try_except in H2.
    destruct (bind _ _ w1) as [w3 [[]|e]] eqn:Hm; inversion H2; subst; clear H2.
    all: apply bind_inv in Hm as [(e' & Hm & _)|(w4 & a & Hm & Hm')].
    all: unfold lift in Hm; inversion Hm; subst; try done.
    all: by apply mkdir_parents_keeps in Hm' as [? _]. }
  destruct (p_exists (fs w) p && p_is_file (fs w) p) eqn:Hc.
  - apply andb_true_iff in Hc as [_ Hf]. unfold p_is_file in Hf.
    destruct (fs w !! p) as [[data|]|] eqn:Hp; try done.
    assert (fs w1 = fs w) as Hsame.
    { assert (step same_fs
                (try_except
                   (do! open_rb p in
                    let! text := read_from p 0 in
                    match json_loads lib text with
                    | Some user_config =>
                        ret (_recursive_update (DEFAULT_CONFIG (home w)) user_config)
                    | None => ret (DEFAULT_CONFIG (home w))
                    end)
                   (fun _ => ret (DEFAULT_CONFIG (home w))))) as Hs.
      { apply step_try_except; [typeclasses eauto| |intros e; step_auto].
        step_bind; [step_auto|intros _].
        step_bind; [step_auto|intros text].
        destruct (json_loads lib text); step_auto. }
      exact (Hs _ _ _ H1). }
    split; [|by rewrite <- Hsame].
    exists s. split; [done|].
    unfold try_except, open_rb, read_from, bind, io, ret in H1.
    repeat (case_match; simplify_eq/=); eauto 10.
  - assert (p_is_file (fs w) p = false) as Hf.
    { unfold p_exists, p_is_file in *. by destruct (fs w !! p) as [[|]|]. }
    unfold try_except in H1.
    destruct (bind _ _ w) as [w3 [d|e]] eqn:Hm.
    + inversion H1; subst; clear H1.
      apply bind_inv in Hm as [(e' & Hm & ?)|(w4 & [] & Hm & Hm')]; [done|].
      pose proof (mkdir_parents_no_new_file _ _ p _ _ _ Hm Hf) as Hf4.
      apply mkdir_parents_keeps in Hm as [Hsub4 _].
      assert ((do! open_wb p in close_wb p (json_dumps lib (JDict (DEFAULT_CONFIG (home w)))))
                w4 = (w1, Return tt) ∧ s = DEFAULT_CONFIG (home w)) as [Hw ->].
      { revert Hm'. unfold bind, ret. repeat case_match; intros; simplify_eq/=.
        by repeat match goal with u : unit |- _ => destruct u end. }
      apply write_new_keeps in Hw as [Hsub1 _]; [|done].
      split; [eauto|]. by repeat (etrans; [eassumption|]).
    + unfold ret in H1. inversion H1; subst; clear H1.
      split; [eauto|]. etrans; [|exact Hlog].
      apply bind_inv in Hm as [(e' & Hm & ?)|(w4 & [] & Hm & Hm')].
      { by apply mkdir_parents_keeps in Hm as [? _]. }
      pose proof (mkdir_parents_no_new_file _ _ p _ _ _ Hm Hf) as Hf4.
      apply mkdir_parents_keeps in Hm as [Hsub4 _]. etrans; [exact Hsub4|].
      assert (∃ r', (do! open_wb p in
                     close_wb p (json_dumps lib (JDict (DEFAULT_CONFIG (home w)))))
                      w4 = (w1, r')) as [r' Hw].
      { revert Hm'. unfold bind, ret. repeat case_match; intros; simplify_eq/=; eauto. }
      by apply write_new_keeps in Hw as [? _].
Qed.

End config_more.

Lemma BackupConfig_init_returns (lib : pylib) (config_file_path : string) (w : world) :
  ∃ self, (BackupConfig_init lib config_file_path w).2 = Return self.
Proof.
  unfold BackupConfig_init, bind.
  destruct (_load_and_merge_config lib (Path config_file_path) w) as [w' r] eqn:H.
  apply load_and_merge_cases in H as [(s & -> & _) _]. simpl. eauto.
Qed.

Section config_theorems.
Context (lib : pylib).


(** X12.  Constructing a [BackupConfig] only adds to the file system:
    every file and directory that was there is there unchanged afterwards;
    in particular an existing configuration file is never rewritten, not
    even when it cannot be parsed. *)
Theorem config_construction_only_adds (config_file_path : string) (w : world) :
  fs w ⊆ fs (BackupConfig_init lib config_file_path w).1.
Proof.
  unfold BackupConfig_init, bind.
  destruct (_load_and_merge_config lib (Path config_file_path) w) as [w' r] eqn:H.
  apply load_and_merge_cases in H as [(s & -> & _) Hsub]. done.
Qed.

(** X13.  Every key of the defaults is a key of the loaded settings,
    whatever the file holds: the getters never come to their fallback. *)
Theorem loaded_settings_keep_default_keys
    (config_file_path : string) (w w' : world) (self : BackupConfig) (k : string) :
  BackupConfig_init lib config_file_path w = (w', Return self) →
  is_Some (dict_get (DEFAULT_CONFIG (home w)) k) →
  is_Some (dict_get (settings self) k)
  ∧ setting self (home w) k = default JNull (dict_get (settings self) k).
Proof.
  unfold BackupConfig_init. intros H Hk.
  apply bind_inv in H as [(e & _ & ?)|(w1 & s & H & Hret)]; [done|].
  inversion Hret; subst; clear Hret. simpl.
  apply load_and_merge_cases in H as [(s' & [= <-] & Hs) _].
  assert (is_Some (dict_get s k)) as [v Hv].
  { destruct Hs as [->|(data & u & _ & _ & ->)]; [done|].
    by apply recursive_update_keeps_keys. }
  split; [by exists v|]. unfold setting. simpl. by rewrite Hv.
Qed.

(** X14.  When the file is a JSON object, its top-level entries replace
    the defaults wholesale: a key has the value of the file when the file
    gives one, and that of the defaults otherwise.  Nothing is merged
    below the top level, because no default is a dictionary; and nothing
    is validated. *)
Theorem file_values_replace_defaults
    (config_file_path : string) (w : world) (data : bytes)
    (items : list (string * json)) :
  fault w = None →
  fs w !! Path config_file_path = Some (File data) →
  json_loads lib data = Some (JDict items) →
  NoDup items.*1 →
  ∃ w' self,
    BackupConfig_init lib config_file_path w = (w', Return self)
    ∧ ∀ k, dict_get (settings self) k
           = match dict_get items k with
             | Some v => Some v
             | None => dict_get (DEFAULT_CONFIG (home w)) k
             end.
Proof.
  intros Hfault Hfile Hjson Hnd.
  destruct (BackupConfig_init lib config_file_path w) as [w' r] eqn:H.
  destruct (BackupConfig_init_returns lib config_file_path w) as [self Hr].
  rewrite H in Hr. simpl in Hr. subst r. exists w', self. split; [done|].
  unfold BackupConfig_init in H.
  apply bind_inv in H as [(e & _ & ?)|(w1 & s & H & Hret)]; [done|].
  inversion Hret; subst; clear Hret. simpl.
  assert (s = _recursive_update (DEFAULT_CONFIG (home w)) (JDict items)) as ->.
  { revert H. unfold _load_and_merge_config. unfold bind at 1, get_world at 1.
    unfold p_exists, p_is_file. rewrite Hfile. simpl. intros H.
    apply bind_inv in H as [(e & H & _)|(w2 & s' & H1 & H2)].
    { by apply try_except_ret_returns in H. }
    apply bind_inv in H2 as [(e & H2 & _)|(w3 & [] & H2 & H3)].
    { by apply try_except_ret_returns in H2. }
    inversion H3; subst; clear H3 H2.
    revert H1. unfold try_except, open_rb, read_from, bind, io.
    rewrite Hfault, Hfile, Hfault, Hfile, drop_0, Hjson.
    unfold ret. by intros [= _ <-]. }
  intros k. apply recursive_update_flat; [done|].
  intros key sub _. clear.
  unfold DEFAULT_CONFIG, dict_get.
  repeat (destruct (String.eqb key _); [done|]). done.
Qed.

(** X15.  When the file is missing, is a directory, does not parse, or
    holds JSON that is not an object, the settings are exactly the
    defaults, whatever I/O call fails. *)
Theorem unusable_file_gives_defaults
    (config_file_path : string) (w w' : world) (self : BackupConfig) :
  BackupConfig_init lib config_file_path w = (w', Return self) →
  (∀ data items, fs w !! Path config_file_path = Some (File data) →
                 json_loads lib data ≠ Some (JDict items)) →
  settings self = DEFAULT_CONFIG (home w).
Proof.
  unfold BackupConfig_init. intros H Hbad.
  apply bind_inv in H as [(e & _ & ?)|(w1 & s & H & Hret)]; [done|].
  inversion Hret; subst; clear Hret. simpl.
  apply load_and_merge_cases in H as [(s' & [= <-] & Hs) _].
  destruct Hs as [->|(data & u & Hfile & Hjson & ->)]; [done|].
  destruct u; try done. by destruct (Hbad _ _ Hfile Hjson).
Qed.

(** X16.  A missing configuration file is written: when the file is not
    there, its directory can be made and nothing fails, construction
    leaves at its path the serialised defaults. *)
Theorem missing_configuration_is_written (config_file_path : string) (w : world) :
  fault w = None →
  fs w !! Path config_file_path = None →
  fs w !! parent (Path config_file_path) = Some Dir →
  List.find (p_is_file (fs w)) (ancestors_and_self (parent (Path config_file_path))) = None →
  ∃ w' self,
    BackupConfig_init lib config_file_path w = (w', Return self)
    ∧ settings self = DEFAULT_CONFIG (home w)
    ∧ fs w' !! Path config_file_path
      = Some (File (json_dumps lib (JDict (DEFAULT_CONFIG (home w))))).
Proof.
  intros Hfault Hnone Hparent Hfind. set (p := Path config_file_path) in *.
  destruct (BackupConfig_init lib config_file_path w) as [w' r] eqn:H.
  destruct (BackupConfig_init_returns lib config_file_path w) as [self Hr].
  rewrite H in Hr. simpl in Hr. subst r. exists w', self. split; [done|].
  unfold BackupConfig_init in H.
  apply bind_inv in H as [(e & _ & ?)|(w1 & s & H & Hret)]; [done|].
  inversion Hret; subst; clear Hret. simpl. fold p in H.
  revert H. unfold _load_and_merge_config. unfold bind at 1, get_world at 1.
  unfold p_exists at 1. rewrite Hnone. simpl. intros H.
  apply bind_inv in H as [(e & H & _)|(w2 & s' & H1 & H2)].
  { by apply try_except_ret_returns in H. }
  apply bind_inv in H2 as [(e & H2 & _)|(w3 & [] & H2 & H3)].
  { by apply try_except_ret_returns in H2. }
  inversion H3; subst; clear H3.
  assert (fs w2 ⊆ fs w') as Hsub.
  { unfold try_except in H2.
    destruct (bind _ _ w2) as [w3 [[]|e]] eqn:Hm; inversion H2; subst; clear H2.
    all: apply bind_inv in Hm as [(e' & Hm & _)|(w4 & a & Hm & Hm')].
    all: unfold lift in Hm; inversion Hm; subst; try done.
    all: by apply mkdir_parents_keeps in Hm' as [? _]. }
  destruct (mkdir_parents_ok (parent p) w) as (w4 & Hm & Hfs4 & _);
    [by rewrite Hfault|done|].
  assert (fault w4 = None) as Hfault4.
  { revert Hm. unfold mkdir_parents, bind, io. rewrite Hfault, Hfind.
    destruct (_ && _); intros; by simplify_eq/=. }
  assert (fs w4 !! p = None) as Hp4.
  { rewrite Hfs4, mkdirs_lookup. destruct (decide _) as [Hin|]; [|done].
    apply ancestors_are_prefixes in Hin.
    assert (p = parent p) as Heq.
    { apply (anti_symm prefix); [done|apply parent_prefix]. }
    rewrite <- Heq in Hparent. congruence. }
  assert (fs w4 !! parent p = Some Dir) as Hd4.
  { by apply (lookup_weaken (fs w)); [|rewrite Hfs4; apply mkdir_parents_keeps in Hm as [? _]; by rewrite <- Hfs4]. }
  revert H1. unfold try_except. unfold bind at 1. rewrite Hm.
  unfold open_wb, close_wb, bind, io, ret. rewrite Hfault4, Hp4, Hd4. simpl.
  rewrite lookup_insert_eq. intros [= <- <-]. split; [done|].
  apply (lookup_weaken _ _ _ _ (lookup_insert_eq _ _ _) Hsub).
Qed.

(** X17.  The file written for a missing configuration reads back as the
    defaults, provided the JSON library reads back what it writes. *)
Theorem written_defaults_read_back
    (config_file_path : string) (w w' : world) (self : BackupConfig) :
  json_loads lib (json_dumps lib (JDict (DEFAULT_CONFIG (home w))))
  = Some (JDict (DEFAULT_CONFIG (home w))) →
  fs w !! Path config_file_path
  = Some (File (json_dumps lib (JDict (DEFAULT_CONFIG (home w))))) →
  BackupConfig_init lib config_file_path w = (w', Return self) →
  settings self = DEFAULT_CONFIG (home w).
Proof.
  unfold BackupConfig_init. intros Hrt Hfile H.
  apply bind_inv in H as [(e & _ & ?)|(w1 & s & H & Hret)]; [done|].
  inversion Hret; subst; clear Hret. simpl.
  apply load_and_merge_cases in H as [(s' & [= <-] & Hs) _].
  destruct Hs as [->|(data & u & Hfile' & Hjson & ->)]; [done|].
  rewrite Hfile in Hfile'. inversion Hfile'; subst. rewrite Hrt in Hjson.
  by inversion Hjson.
Qed.

End config_theorems.

Lemma loaded_settings_keep_default_keys_witness :
  let self := {| config_file_path := demo_config; settings := DEFAULT_CONFIG demo_home |} in
  (BackupConfig_init toy_lib "/tmp/config.json" (demo_world [] None)).2 = Return self
  ∧ is_Some (dict_get (settings self) "archive_format")
  ∧ setting self (home (demo_world [] None)) "archive_format"
    = default JNull (dict_get (settings self) "archive_format").
Proof.
  intros self. split; [vm_compute; reflexivity|].
  apply (loaded_settings_keep_default_keys toy_lib "/tmp/config.json" (demo_world [] None)
           (BackupConfig_init toy_lib "/tmp/config.json" (demo_world [] None)).1
           self "archive_format").
  - vm_compute; reflexivity.
  - by eexists.
Defined.

Lemma file_values_replace_defaults_witness :
  let text := bytes_of_string "{archive_format: rar}" in
  let items := [("archive_format", JStr "rar")] in
  let w := set_fs (insert demo_config (File text)) (demo_world [] None) in
  ∃ w' self,
    BackupConfig_init (json_lib text (JDict items)) "/tmp/config.json" w = (w', Return self)
    ∧ ∀ k, dict_get (settings self) k
           = match dict_get items k with
             | Some v => Some v
             | None => dict_get (DEFAULT_CONFIG (home w)) k
             end.
Proof.
  intros text items w.
  apply (file_values_replace_defaults (json_lib text (JDict items)) "/tmp/config.json" w text
           items).
  - reflexivity.
  - vm_compute; reflexivity.
  - vm_compute; reflexivity.
  - apply NoDup_cons. split; [apply not_elem_of_nil|apply NoDup_nil_2].
Defined.

Lemma unusable_file_gives_defaults_witness :
  let w := demo_world [] (Some 0) in
  let self := {| config_file_path := ["/"; "tmp"; "empty"];
                 settings := DEFAULT_CONFIG demo_home |} in
  (BackupConfig_init toy_lib "/tmp/empty" w).2 = Return self
  ∧ settings self = DEFAULT_CONFIG (home w).
Proof.
  intros w self. split; [vm_compute; reflexivity|].
  apply (unusable_file_gives_defaults toy_lib "/tmp/empty" w
           (BackupConfig_init toy_lib "/tmp/empty" w).1).
  - vm_compute; reflexivity.
  - discriminate.
Defined.

Lemma missing_configuration_is_written_witness :
  let w := demo_world [] None in
  ∃ w' self,
    BackupConfig_init toy_lib "/tmp/config.json" w = (w', Return self)
    ∧ settings self = DEFAULT_CONFIG (home w)
    ∧ fs w' !! Path "/tmp/config.json"
      = Some (File (json_dumps toy_lib (JDict (DEFAULT_CONFIG (home w))))).
Proof.
  intros w.
  apply (missing_configuration_is_written toy_lib "/tmp/config.json" w).
  - reflexivity.
  - vm_compute; reflexivity.
  - vm_compute; reflexivity.
  - vm_compute; reflexivity.
Defined.

Lemma written_defaults_read_back_witness :
  let text := bytes_of_string "{defaults}" in
  let lib := json_lib text (JDict (DEFAULT_CONFIG demo_home)) in
  let w := set_fs (insert demo_config (File text)) (demo_world [] None) in
  let self := {| config_file_path := demo_config; settings := DEFAULT_CONFIG demo_home |} in
  (BackupConfig_init lib "/tmp/config.json" w).2 = Return self
  ∧ settings self = DEFAULT_CONFIG (home w).
Proof.
  intros text lib w self. split; [vm_compute; reflexivity|].
  apply (written_defaults_read_back lib "/tmp/config.json" w
           (BackupConfig_init lib "/tmp/config.json" w).1).
  - vm_compute; reflexivity.
  - vm_compute; reflexivity.
  - vm_compute; reflexivity.
Defined.

(** ** lib/archiver.py, lib/manager.py *)

Section manager_more.
Context (lib : pylib).

(** X18.  The constructor of [Archiver] accepts the format [zip], but
    [compress_files] knows [tar.gz] only: an archiver of the other
    accepted format writes nothing and returns as if all were well. *)
Theorem zip_format_archives_nothing (format : string) (self : Archiver) (w0 w0' : world) :
  Archiver_init format w0 = (w0', Return self) →
  format ≠ "tar.gz" →
  format = "zip"
  ∧ ∀ files archive_path_output staging_area w,
      compress_files lib self files archive_path_output staging_area w = (w, Return tt).
Proof.
  unfold Archiver_init. intros H Hf.
  destruct (bool_decide_reflect (format ∈ ["tar.gz"; "zip"])) as [Hin|]; [|done].
  inversion H; subst; clear H.
  apply elem_of_cons in Hin as [?|Hin]; [done|].
  apply list_elem_of_singleton in Hin as ->. split; [done|].
  intros files out staging w. by unfold compress_files.
Qed.

Lemma stage_file_returns_path (self : BackupManager) (f d : path) (w w' : world) :
  stage_file lib self f w = (w', Return d) →
  d = staging_path self // relative_path (home w) f.
Proof.
  unfold stage_file. unfold bind at 1, get_world at 1. intros H.
  apply bind_inv in H as [(e & _ & ?)|(w1 & [] & _ & H)]; [done|].
  apply bind_inv in H as [(e & _ & ?)|(w2 & [] & _ & H)]; [done|].
  by inversion H.
Qed.

(** X19.  Staging does not keep originals apart: a file under the home
    directory and the file outside it that has the same path below the
    root are given the same staged path, so the one staged later
    replaces the other and the archive holds one of the two. *)
Theorem staged_paths_can_collide
    (self : BackupManager) (rel d1 d2 : path) (w1 w1' w2 w2' : world) :
  ¬ home w1 `prefix_of` "/" :: rel →
  home w2 = home w1 →
  stage_file lib self (home w1 ++ rel) w1 = (w1', Return d1) →
  stage_file lib self ("/" :: rel) w2 = (w2', Return d2) →
  home w1 ++ rel ≠ "/" :: rel ∧ d1 = d2.
Proof.
  intros Hout Hh H1%stage_file_returns_path H2%stage_file_returns_path. split.
  - intros Heq. apply Hout. rewrite <- Heq. by apply prefix_app_r.
  - subst. rewrite Hh. f_equal. unfold relative_path.
    rewrite bool_decide_eq_true_2 by by apply prefix_app_r.
    rewrite bool_decide_eq_false_2 by done.
    by rewrite drop_app_length.
Qed.


(** X21.  [_setup_staging_area] hands over an empty directory: when it
    returns, the staging root is a directory and nothing is below it,
    whatever an earlier run left there. *)
Theorem setup_leaves_staging_empty (self : BackupManager) (w w' : world) :
  staging_path self ≠ [] →
  (fs w !! staging_path self = None →
   ∀ q, staging_path self `prefix_of` q → fs w !! q = None) →
  _setup_staging_area self w = (w', Return tt) →
  fs w' !! staging_path self = Some Dir
  ∧ ∀ q, staging_path self `prefix_of` q → q ≠ staging_path self → fs w' !! q = None.
Proof.
  intros Hne Hwf H. split; [by apply setup_staging_returns in H as [? _]|].
  intros q Hq Hneq. revert H. unfold _setup_staging_area.
  unfold bind at 1, get_world at 1. intros H.
  apply bind_inv in H as [(e & _ & ?)|(w1 & [] & H1 & H2)]; [done|].
  assert (fs w1 !! q = None) as Hq1.
  { unfold p_exists in H1. destruct (fs w !! staging_path self) as [n|] eqn:Hs.
    - apply rmtree_returns in H1 as [-> _].
      apply map_lookup_filter_None. right. intros n' _ Hn'. by apply Hn'.
    - inversion H1; subst. by apply Hwf. }
  apply mkdir_parents_cases in H2 as [(_ & _ & e & ? & _)|(_ & -> & _)]; [done|].
  rewrite mkdirs_lookup. destruct (decide _) as [Hin|]; [|done].
  apply ancestors_are_prefixes in Hin. destruct Hneq. by apply (anti_symm prefix).
Qed.

Lemma tar_add_keeps_archive (archive file_path arcname : path)
    (members : list (path * node)) (w w' : world) (r : outcome (list (path * node))) :
  p_is_file (fs w) archive = true →
  tar_add lib archive members file_path arcname w = (w', r) →
  p_is_file (fs w') archive = true ∧ clock w' = clock w.
Proof.
  unfold tar_add, bind, io, get_world, close_wb, raise, ret, p_is_file.
  intros Hf H.
  repeat (case_match; simplify_eq/=); rewrite ?lookup_insert_eq; try done.
  all: by match goal with
          | Heq : <[_:=_]> _ !! _ = _ |- _ => rewrite lookup_insert_eq in Heq
          end.
Qed.

Lemma tar_add_all_keeps_archive (archive staging_area : path) (files : list path)
    (members : list (path * node)) (w w' : world) (r : outcome (list (path * node))) :
  p_is_file (fs w) archive = true →
  tar_add_all lib archive staging_area files members w = (w', r) →
  p_is_file (fs w') archive = true ∧ clock w' = clock w.
Proof.
  revert members w. induction files as [|f files IH]; intros members w Hf H; simpl in H.
  - unfold ret in H. by inversion H; subst.
  - apply bind_inv in H as [(e & H & _)|(w1 & arc & H1 & H2)].
    { destruct (bool_decide _); inversion H; by subst. }
    assert (w1 = w) as -> by (destruct (bool_decide _); by inversion H1).
    apply bind_inv in H2 as [(e & H2 & _)|(w2 & m' & H2 & H3)].
    + by apply tar_add_keeps_archive in H2.
    + apply tar_add_keeps_archive in H2 as [Hf2 Hc2]; [|done].
      apply IH in H3 as [? ?]; [|done]. split; [done|congruence].
Qed.

(** X22.  A run that finds files and returns leaves a finished archive:
    at the path made of the destination and the time stamp there is a
    regular file that holds the image of a closed archive, and it has
    survived the removal of the staging area. *)
Theorem returned_run_leaves_finished_archive
    (self : BackupManager) (w w' : world) (files : list path) :
  discover_all_files lib (fs w) (histfile w) (discoverer self) = Return files →
  files ≠ [] →
  archive_format (archiver self) = "tar.gz" →
  ¬ staging_path self `prefix_of` final_archive_path self w →
  run_backup lib self w = (w', Return tt) →
  ∃ members,
    fs w' !! final_archive_path self w = Some (File (tar_image lib members true)).
Proof.
  intros Hfiles Hne Hfmt Hout. unfold run_backup.
  unfold bind at 1, get_world at 1. unfold bind at 1, lift at 1. rewrite Hfiles.
  destruct files as [|f files]; [done|]. intros H.
  apply bind_inv in H as [(e & _ & ?)|(w1 & [] & H1 & H2)]; [done|].
  assert (clock w1 = clock w) as Hc1.
  { revert H1. unfold _setup_staging_area. unfold bind at 1, get_world at 1. intros H1.
    apply bind_inv in H1 as [(e & _ & ?)|(w0 & [] & H0 & H1)]; [done|].
    assert (clock w0 = clock w) as <-.
    { destruct (p_exists _ _); [by apply rmtree_returns in H0 as (_ & _ & ?)|by inversion H0]. }
    assert (step (evolves anywhere) (mkdir_parents false (staging_path self))) as Hs
      by by apply step_mkdir_parents.
    by destruct (Hs _ _ _ H1) as (_ & ? & _). }
  unfold try_finally in H2.
  destruct (bind _ _ w1) as [w2 r2] eqn:Hm.
  destruct (_cleanup_staging_area self w2) as [w3 [[]|e]] eqn:Hcl; [|done].
  assert (w3 = w' ∧ r2 = Return tt) as [-> ->] by (by inversion H2). clear H2.
  apply bind_inv in Hm as [(e & _ & ?)|(w4 & staged & Hst & Harch)]; [done|].
  assert (clock w4 = clock w) as Hc4.
  { destruct (step_stage_all_anywhere lib self _ _ _ _ _ Hst) as (_ & ? & _). congruence. }
  revert Harch. unfold archive_staged. unfold bind at 1, get_world at 1.
  replace (final_archive_path self w4) with (final_archive_path self w)
    by (unfold final_archive_path; by rewrite Hc4).
  set (out := final_archive_path self w) in *.
  unfold compress_files. rewrite Hfmt. simpl. intros H.
  apply bind_inv in H as [(e & _ & ?)|(w5 & [] & Hopen & H)]; [done|].
  apply bind_inv in H as [(e & _ & ?)|(w6 & [] & Hclose & H)]; [done|].
  apply bind_inv in H as [(e & _ & ?)|(w7 & members & Hadd & H)]; [done|].
  assert (p_is_file (fs w6) out = true) as Hf6.
  { revert Hopen Hclose. unfold open_wb, close_wb, bind, io, p_is_file.
    intros Hopen Hclose. repeat (case_match; simplify_eq/=); rewrite ?lookup_insert_eq; try done.
    all: by match goal with Heq : <[_:=_]> _ !! _ = _ |- _ => rewrite lookup_insert_eq in Heq end. }
  apply tar_add_all_keeps_archive in Hadd as [Hf7 _]; [|done].
  exists members.
  assert (fs w2 !! out = Some (File (tar_image lib members true))) as Hw2.
  { revert H. unfold close_wb, p_is_file in *.
    destruct (fs w7 !! out) as [[|]|]; try done. intros [= <-]. simpl.
    by rewrite lookup_insert_eq. }
  revert Hcl. unfold _cleanup_staging_area. unfold bind at 1, get_world at 1.
  destruct (p_exists _ _); [|by intros [= <-]].
  intros [-> _]%rmtree_returns. by rewrite rmtree_lookup_outside.
Qed.

(** X23.  A run that finds neither a history file nor a file in [.ssh]
    touches nothing: it makes no staging area and no archive, and what an
    earlier run left behind stays where it is. *)
Theorem run_without_files_touches_nothing (self : BackupManager) (w : world) :
  get_setting (discoverer self) "files_to_include"
  = Some (JList (files_to_include manager_config_data)) →
  get_shell_history_files (fs w) (histfile w) (discoverer self) = [] →
  get_ssh_key_files (fs w) (discoverer self) = [] →
  run_backup lib self w = (w, Return tt).
Proof.
  intros Hset Hsh Hssh. unfold run_backup, bind, get_world, lift, discover_all_files.
  rewrite Hset. simpl. unfold discover_rule. simpl. rewrite Hsh, Hssh. simpl.
  replace (∅ ∪ ∅ ∪ ∅ : gset path) with (∅ : gset path) by set_solver.
  by rewrite elements_empty.
Qed.

End manager_more.

Lemma zip_format_archives_nothing_witness :
  "zip" = "zip"
  ∧ ∀ files archive_path_output staging_area w,
      compress_files toy_lib {| archive_format := "zip" |} files archive_path_output
        staging_area w = (w, Return tt).
Proof.
  apply (zip_format_archives_nothing toy_lib "zip" {| archive_format := "zip" |}
           (demo_world [] None) (demo_world [] None)).
  - reflexivity.
  - discriminate.
Defined.

Lemma staged_paths_can_collide_witness :
  let w := set_fs (fun m => <[ ["/"; "etc"; "hosts"] := File (bytes_of_string "system") ]>
                              (<[ demo_home ++ ["etc"; "hosts"] := File (bytes_of_string "mine") ]> m))
                  (demo_world [] None) in
  let d := demo_staging ++ ["etc"; "hosts"] in
  (stage_file toy_lib demo_manager (home w ++ ["etc"; "hosts"]) w).2 = Return d
  ∧ (stage_file toy_lib demo_manager ["/"; "etc"; "hosts"] w).2 = Return d
  ∧ home w ++ ["etc"; "hosts"] ≠ ["/"; "etc"; "hosts"]
  ∧ d = d.
Proof.
  intros w d. split; [vm_compute; reflexivity|]. split; [vm_compute; reflexivity|].
  apply (staged_paths_can_collide toy_lib demo_manager ["etc"; "hosts"]
           (demo_staging ++ ["etc"; "hosts"]) (demo_staging ++ ["etc"; "hosts"])
           w (stage_file toy_lib demo_manager (home w ++ ["etc"; "hosts"]) w).1
           w (stage_file toy_lib demo_manager ["/"; "etc"; "hosts"] w).1).
  - intros [k Hk]. discriminate Hk.
  - reflexivity.
  - vm_compute; reflexivity.
  - vm_compute; reflexivity.
Defined.


Lemma setup_leaves_staging_empty_witness :
  let w := set_fs (fun m => <[demo_staging := Dir]>
                              (<[demo_staging ++ ["leftover"] := File []]> m))
                  (demo_world [] None) in
  let w' := (_setup_staging_area demo_manager w).1 in
  fs w' !! staging_path demo_manager = Some Dir
  ∧ ∀ q, staging_path demo_manager `prefix_of` q → q ≠ staging_path demo_manager →
         fs w' !! q = None.
Proof.
  intros w w'.
  apply (setup_leaves_staging_empty demo_manager w w').
  - discriminate.
  - intros H. vm_compute in H. discriminate H.
  - vm_compute; reflexivity.
Defined.

Lemma returned_run_leaves_finished_archive_witness :
  let w := set_fs (insert ["/"; "tmp"; "my_backups"] Dir) (demo_world [] None) in
  ∃ members,
    fs (run_backup toy_lib demo_manager w).1 !! final_archive_path demo_manager w
    = Some (File (tar_image toy_lib members true)).
Proof.
  intros w.
  apply (returned_run_leaves_finished_archive toy_lib demo_manager w
           (run_backup toy_lib demo_manager w).1
           [ demo_home ++ [".bash_history"];
             demo_home ++ [".ssh"; "id_rsa.pub"];
             demo_home ++ [".ssh"; "id_rsa"] ]).
  - vm_compute; reflexivity.
  - discriminate.
  - reflexivity.
  - intros [k Hk]. vm_compute in Hk. discriminate Hk.
  - vm_compute; reflexivity.
Defined.

Lemma run_without_files_touches_nothing_witness :
  let w := set_fs (fun _ => bare_fs) (demo_world [] None) in
  run_backup toy_lib demo_manager w = (w, Return tt).
Proof.
  intros w.
  apply (run_without_files_touches_nothing toy_lib demo_manager w).
  - reflexivity.
  - vm_compute; reflexivity.
  - vm_compute; reflexivity.
Defined.

(** ** What a run may touch *)

#[local] Instance touches_preorder (S : path → Prop) : PreOrder (touches S).
Proof.
  split.
  - by intros w.
  - intros w1 w2 w3 (Hh1 & Hc1 & H1) (Hh2 & Hc2 & H2). split_and!; [congruence..|].
    intros q Hq. by rewrite H2, H1.
Qed.

Lemma touches_ambient (S : path → Prop) (w w' : world) :
  fs w' = fs w → home w' = home w → clock w' = clock w → touches S w w'.
Proof. intros Hfs Hh Hc. split_and!; [done..|]. by rewrite Hfs. Qed.

Lemma evolves_touches (S : path → Prop) (w w' : world) : evolves S w w' → touches S w w'.
Proof. intros (Hh & Hc & Hg & _). by split_and!. Qed.

Lemma step_evolves_touches {A} (S : path → Prop) (m : M A) :
  step (evolves S) m → step (touches S) m.
Proof. intros Hm w w' r H. by apply evolves_touches, (Hm _ _ _ H). Qed.

Lemma touches_mono (S S' : path → Prop) (w w' : world) :
  (∀ q, S q → S' q) → touches S w w' → touches S' w w'.
Proof.
  intros HS (? & ? & Hq). split_and!; [done..|]. intros q Hn. apply Hq. auto.
Qed.

Lemma step_rmtree (S : path → Prop) (p : path) :
  (∀ q, p `prefix_of` q → S q) → step (touches S) (rmtree p).
Proof.
  intros HS w w' r H. unfold rmtree in H.
  destruct (fs w !! p) as [[|]|]; inversion H; subst; try done.
  split_and!; [done..|]. intros q Hq. simpl. apply rmtree_lookup_outside. auto.
Qed.

#[local] Hint Resolve touches_ambient : step.

Section key_backup_more.
Context (lib : pylib).

Lemma step_prepare_files (S : path → Prop) (self : KeyBackup) :
  (∀ q, temp_dir self `prefix_of` q → S q) → step (touches S) (prepare_files self).
Proof.
  intros HS. unfold prepare_files. apply step_for_each; [typeclasses eauto|].
  intros key_path. step_bind; [step_auto|intros w].
  destruct (p_exists _ _); [|step_auto].
  apply step_evolves_touches, step_copy2; apply HS; [done|by apply prefix_app_r].
Qed.

Lemma step_zf_write_all (S : path → Prop) (self : KeyBackup) (zip_path : path)
    (filepaths : list path) (members : list (path * node)) :
  S zip_path → step (touches S) (zf_write_all lib self zip_path filepaths members).
Proof.
  intros HS. revert members.
  induction filepaths as [|f filepaths IH]; intros members; simpl; [step_auto|].
  step_bind; [|intros m'; apply IH].
  unfold zf_write. step_bind; [step_auto|intros _]. step_bind; [step_auto|intros w].
  destruct (fs w !! f); [|step_auto].
  step_bind; [|intros _; step_auto].
  by apply step_evolves_touches, step_close_wb.
Qed.

Lemma step_create_encrypted_zip (S : path → Prop) (self : KeyBackup) :
  S (kb_home_dir self // Path (zip_filename self)) →
  step (touches S) (create_encrypted_zip lib self).
Proof.
  intros HS. unfold create_encrypted_zip.
  step_bind; [by apply step_evolves_touches, step_open_wb|intros _].
  step_bind; [by apply step_evolves_touches, step_close_wb|intros _].
  step_bind; [step_auto|intros w].
  step_bind; [destruct (fs w !! temp_dir self) as [[|]|]; step_auto|intros _].
  step_bind; [by apply step_zf_write_all|intros _; step_auto].
Qed.

(** X24.  Whatever a run of [KeyBackup] does, return or raise, it
    changes nothing outside its temporary directory and the one archive
    path: the key files it is given are read only, and no other file is
    made, changed or removed. *)
Theorem key_backup_touches_temp_dir_and_archive_only
    (self : KeyBackup) (w w' : world) (r : outcome unit) (q : path) :
  KeyBackup_run_backup lib self w = (w', r) →
  ¬ temp_dir self `prefix_of` q →
  q ≠ kb_home_dir self // Path (zip_filename self) →
  fs w' !! q = fs w !! q.
Proof.
  intros H Hq Hz.
  set (S := fun q : path =>
              temp_dir self `prefix_of` q ∨ q = kb_home_dir self // Path (zip_filename self)).
  assert (step (touches S) (KeyBackup_run_backup lib self)) as Hs.
  { unfold KeyBackup_run_backup.
    step_bind; [apply step_prepare_files; by left|intros _].
    step_bind; [apply step_create_encrypted_zip; by right|intros _].
    apply step_rmtree. by left. }
  destruct (Hs _ _ _ H) as (_ & _ & Hframe). apply Hframe. by intros [?|?].
Qed.

Lemma iterdir_insert_outside (m : gmap path node) (d p : path) (n : node) :
  iterdir m d = [] → parent p ≠ d → iterdir (<[p:=n]> m) d = [].
Proof.
  unfold iterdir. intros Hnil Hp. apply elem_of_nil_inv. intros x Hx.
  apply list_elem_of_filter in Hx as [[Hpar Hne] Hin].
  apply elem_of_elements, elem_of_dom in Hin.
  destruct (decide (x = p)) as [->|Hxp]; [done|].
  rewrite lookup_insert_ne in Hin by done.
  assert (x ∈ filter (fun p => parent p = d ∧ p ≠ d) (elements (dom m))) as Hx.
  { apply list_elem_of_filter. split; [done|]. by apply elem_of_elements, elem_of_dom. }
  rewrite Hnil in Hx. by apply elem_of_nil in Hx.
Qed.

(** X25.  Key files that are not there are skipped without an error:
    when neither exists, the run still returns, and what it leaves is an
    archive without a member. *)
Theorem missing_keys_give_an_empty_archive (self : KeyBackup) (w : world) :
  let zip_path := kb_home_dir self // Path (zip_filename self) in
  fault w = None →
  fs w !! Path (ssh_key_path self) = None →
  fs w !! Path (gpg_key_path self) = None →
  fs w !! temp_dir self = Some Dir →
  iterdir (fs w) (temp_dir self) = [] →
  fs w !! zip_path ≠ Some Dir →
  fs w !! parent zip_path = Some Dir →
  ¬ temp_dir self `prefix_of` zip_path →
  ∃ w', KeyBackup_run_backup lib self w = (w', Return tt)
        ∧ fs w' !! zip_path = Some (File (zip_image lib (zip_password self) [] true))
        ∧ fs w' !! temp_dir self = None.
Proof.
  intros zip_path Hfault Hssh Hgpg Htemp Hempty Hzip Hparent Hout.
  assert (zip_path ≠ temp_dir self) as Hne by (intros Heq; apply Hout; by rewrite Heq).
  assert (parent zip_path ≠ temp_dir self) as Hpar.
  { intros Heq. apply Hout. rewrite <- Heq. apply parent_prefix. }
  unfold KeyBackup_run_backup, prepare_files, create_encrypted_zip, cleanup. simpl.
  fold zip_path.
  unfold bind, get_world, ret, p_exists, open_wb, close_wb, io, bind, raise.
  rewrite Hssh, Hgpg, Hfault. simpl.
  destruct (fs w !! zip_path) as [[data|]|] eqn:Hz; [|done|].
  all: rewrite Hparent; simpl; rewrite lookup_insert_eq; simpl.
  all: rewrite lookup_insert_ne, lookup_insert_ne, Htemp by done.
  all: rewrite insert_insert_eq, iterdir_insert_outside by done; simpl.
  all: unfold rmtree; simpl; rewrite !lookup_insert_ne, Htemp by done.
  all: eexists; split; [reflexivity|]; simpl.
  all: rewrite rmtree_lookup_outside, rmtree_lookup_root by done.
  all: by rewrite lookup_insert_eq.
Qed.

End key_backup_more.

Section manager_frame.
Context (lib : pylib).

Lemma step_setup_staging_area (S : path → Prop) (self : BackupManager) :
  (∀ q, on_branch (staging_path self) q → S q) →
  step (touches S) (_setup_staging_area self).
Proof.
  intros HS. unfold _setup_staging_area. step_bind; [step_auto|intros w].
  step_bind; [|intros _].
  - destruct (p_exists _ _); [|step_auto]. apply step_rmtree. intros q Hq. apply HS. by left.
  - apply step_evolves_touches, step_mkdir_parents.
    intros q Hq%ancestors_are_prefixes. apply HS. by right.
Qed.

Lemma step_cleanup_staging_area (S : path → Prop) (self : BackupManager) :
  (∀ q, on_branch (staging_path self) q → S q) →
  step (touches S) (_cleanup_staging_area self).
Proof.
  intros HS. unfold _cleanup_staging_area. step_bind; [step_auto|intros w].
  destruct (p_exists _ _); [|step_auto]. apply step_rmtree. intros q Hq. apply HS. by left.
Qed.


End manager_frame.

(** ** backup_util.py *)

Section main_more.
Context (lib : pylib).


#[local] Instance same_tty_preorder : PreOrder same_tty.
Proof. split; [by intros w|intros w1 w2 w3; unfold same_tty; congruence]. Qed.

Lemma step_io_same_tty : step same_tty io.
Proof. intros w w' r H. unfold io in H. destruct (fault w) as [[|n]|]; by inversion H. Qed.

Lemma step_mkdir_parents_same_tty (exist_ok : bool) (p : path) :
  step same_tty (mkdir_parents exist_ok p).
Proof. intros w w' r H. by apply mkdir_parents_cases in H as [(_ & ? & _)|(_ & _ & ? & _)]. Qed.

Lemma step_open_rb_same_tty (p : path) : step same_tty (open_rb p).
Proof.
  unfold open_rb. step_bind; [apply step_io_same_tty|]. intros _ w w' r H.
  destruct (fs w !! p) as [[|]|]; by inversion H.
Qed.

Lemma step_read_from_same_tty (p : path) (pos : nat) : step same_tty (read_from p pos).
Proof.
  unfold read_from. step_bind; [apply step_io_same_tty|]. intros _ w w' r H.
  destruct (fs w !! p) as [[|]|]; by inversion H.
Qed.

Lemma step_open_wb_same_tty (p : path) : step same_tty (open_wb p).
Proof.
  unfold open_wb. step_bind; [apply step_io_same_tty|]. intros _ w w' r H.
  destruct (fs w !! p) as [[|]|]; [| |]; try by inversion H.
  all: destruct (fs w !! parent p) as [[|]|]; by inversion H.
Qed.

Lemma step_close_wb_same_tty (p : path) (data : bytes) : step same_tty (close_wb p data).
Proof.
  intros w w' r H. unfold close_wb in H. destruct (fs w !! p) as [[|]|]; by inversion H.
Qed.

Lemma config_init_keeps_tty (args_config : string) (w w' : world) (r : outcome BackupConfig) :
  BackupConfig_init lib args_config w = (w', r) → tty w' = tty w.
Proof.
  revert w w' r. change (step same_tty (BackupConfig_init lib args_config)).
  unfold BackupConfig_init, _load_and_merge_config.
  step_bind; [|intros s; step_auto].
  step_bind; [step_auto|intros w].
  step_bind; [|intros s]; [|step_bind; [|intros _; step_auto]].
  - destruct (_ && _); (apply step_try_except; [typeclasses eauto| |intros e; step_auto]).
    + step_bind; [apply step_open_rb_same_tty|intros _].
      step_bind; [apply step_read_from_same_tty|intros text].
      destruct (json_loads lib text); step_auto.
    + step_bind; [apply step_mkdir_parents_same_tty|intros _].
      step_bind; [apply step_open_wb_same_tty|intros _].
      step_bind; [apply step_close_wb_same_tty|intros _; step_auto].
  - apply step_try_except; [typeclasses eauto| |intros e; step_auto].
    step_bind; [step_auto|intros log_path]. apply step_mkdir_parents_same_tty.
Qed.


End main_more.

Lemma key_backup_touches_temp_dir_and_archive_only_witness :
  let kb := {| ssh_key_path := "/home/u/.ssh/id_rsa";
               gpg_key_path := "/home/u/.gnupg/secring.gpg";
               zip_password := "secret"; zip_filename := "keys_backup.zip";
               kb_home_dir := demo_home; temp_dir := demo_home ++ ["temp_keys_backup"] |} in
  let w := set_fs (insert (demo_home ++ ["temp_keys_backup"]) Dir) (demo_world [] None) in
  fs (KeyBackup_run_backup toy_lib kb w).1 !! (demo_home ++ [".ssh"; "id_rsa"])
  = fs w !! (demo_home ++ [".ssh"; "id_rsa"]).
Proof.
  intros kb w.
  apply (key_backup_touches_temp_dir_and_archive_only toy_lib kb w
           (KeyBackup_run_backup toy_lib kb w).1 (KeyBackup_run_backup toy_lib kb w).2).
  - apply surjective_pairing.
  - intros [k Hk]. discriminate Hk.
  - discriminate.
Defined.

Lemma missing_keys_give_an_empty_archive_witness :
  let kb := {| ssh_key_path := "/home/u/.ssh/id_ed25519";
               gpg_key_path := "/home/u/.gnupg/secring.gpg";
               zip_password := "secret"; zip_filename := "keys_backup.zip";
               kb_home_dir := demo_home; temp_dir := demo_home ++ ["temp_keys_backup"] |} in
  let w := set_fs (insert (demo_home ++ ["temp_keys_backup"]) Dir) (demo_world [] None) in
  ∃ w', KeyBackup_run_backup toy_lib kb w = (w', Return tt)
        ∧ fs w' !! (kb_home_dir kb // Path (zip_filename kb))
          = Some (File (zip_image toy_lib (zip_password kb) [] true))
        ∧ fs w' !! temp_dir kb = None.
Proof.
  intros kb w.
  apply (missing_keys_give_an_empty_archive toy_lib kb w).
  - reflexivity.
  - vm_compute; reflexivity.
  - vm_compute; reflexivity.
  - vm_compute; reflexivity.
  - vm_compute; reflexivity.
  - vm_compute; discriminate.
  - vm_compute; reflexivity.
  - intros [k Hk]. vm_compute in Hk. discriminate Hk.
Defined.



(** ** lib/ssh_files.py and the extraction of lib/archiver.py *)

Lemma elem_of_insert_sorted (p q : path) (l : list path) :
  q ∈ insert_sorted p l ↔ q = p ∨ q ∈ l.
Proof.
  induction l as [|x l IH]; simpl.
  - set_solver.
  - destruct (path_leb p x); set_solver.
Qed.

Lemma elem_of_sorted (q : path) (l : list path) : q ∈ sorted l ↔ q ∈ l.
Proof.
  unfold sorted. induction l as [|x l IH]; simpl; [done|].
  rewrite elem_of_insert_sorted, IH. set_solver.
Qed.

(** X29.  The names [get_potential_ssh_file_paths] lists lie directly in
    the directory it is given, and the SSH rule of the discoverer, which
    takes every regular file of [.ssh], misses none of them: each listed
    path that is a regular file is among the files the rule returns. *)
Theorem ssh_rule_finds_the_potential_files
    (m : gmap path node) (self : FileDiscoverer) (p : path) :
  p ∈ get_potential_ssh_file_paths (home_dir self ++ [".ssh"]) →
  parent p = home_dir self ++ [".ssh"]
  ∧ (p_is_file m p = true → p_is_dir m (home_dir self ++ [".ssh"]) = true →
     p ∈ get_ssh_key_files m self).
Proof.
  intros Hp.
  assert (∃ n, p = (home_dir self ++ [".ssh"]) ++ [n]) as [n ->].
  { unfold get_potential_ssh_file_paths in Hp. apply elem_of_sorted, elem_of_elements in Hp.
    cbn in Hp. set_unfold in Hp. naive_solver. }
  assert (parent ((home_dir self ++ [".ssh"]) ++ [n]) = home_dir self ++ [".ssh"]) as Hpar.
  { apply parent_snoc. by destruct (home_dir self). }
  split; [done|]. intros Hfile Hdir.
  unfold get_ssh_key_files.
  change (home_dir self // [".ssh"]) with (home_dir self ++ [".ssh"]). rewrite Hdir.
  apply list_elem_of_filter. split; [by apply Is_true_true|].
  unfold iterdir. apply list_elem_of_filter. split.
  - split; [done|]. intros Heq. apply (f_equal length) in Heq.
    rewrite length_app in Heq. simpl in Heq. lia.
  - apply elem_of_elements, elem_of_dom. unfold p_is_file in Hfile.
    by destruct (m !! _).
Qed.

(** X30.  [extract_files] makes the destination before it looks at the
    archive: when the archive is not there, the call raises, and the
    destination directory has been created all the same. *)
Theorem extract_makes_destination_first
    (extractall : bytes → path → M unit) (self : Archiver)
    (archive_path_input destination_path : path) (w : world) :
  fault w = None →
  List.find (p_is_file (fs w)) (ancestors_and_self destination_path) = None →
  destination_path ≠ [] →
  archive_format self = "tar.gz" →
  fs w !! archive_path_input = None →
  ∃ w' e, extract_files extractall self archive_path_input destination_path w
          = (w', Raise e)
          ∧ fs w' !! destination_path = Some Dir.
Proof.
  intros Hfault Hfind Hne Hfmt Hmissing.
  destruct (mkdir_parents_ok destination_path w) as (w1 & Hm & Hfs & _);
    [by rewrite Hfault|done|].
  assert (fault w1 = None) as Hfault1.
  { revert Hm. unfold mkdir_parents, bind, io. rewrite Hfault, Hfind.
    destruct (_ && _); intros; by simplify_eq/=. }
  assert (fs w1 !! destination_path = Some Dir) as Hdest.
  { rewrite Hfs, mkdirs_lookup. rewrite decide_True; [done|].
    unfold ancestors_and_self. apply list_elem_of_fmap.
    exists (length destination_path). split; [by rewrite firstn_all|].
    apply elem_of_seq. destruct destination_path; [done|simpl; lia]. }
  unfold extract_files. unfold bind at 1. rewrite Hm, Hfmt. simpl.
  unfold open_rb, bind, io. rewrite Hfault1.
  destruct (fs w1 !! archive_path_input) as [[data|]|] eqn:Ha.
  - exfalso. revert Ha. rewrite Hfs, mkdirs_lookup, Hmissing. by destruct (decide _).
  - by eexists _, _.
  - by eexists _, _.
Qed.

Lemma ssh_rule_finds_the_potential_files_witness :
  parent (demo_home ++ [".ssh"; "id_rsa.pub"]) = home_dir (demo_discoverer []) ++ [".ssh"]
  ∧ (p_is_file demo_fs (demo_home ++ [".ssh"; "id_rsa.pub"]) = true →
     p_is_dir demo_fs (home_dir (demo_discoverer []) ++ [".ssh"]) = true →
     demo_home ++ [".ssh"; "id_rsa.pub"] ∈ get_ssh_key_files demo_fs (demo_discoverer [])).
Proof.
  apply (ssh_rule_finds_the_potential_files demo_fs (demo_discoverer [])
           (demo_home ++ [".ssh"; "id_rsa.pub"])).
  apply list_elem_of_In. vm_compute. auto 20.
Defined.

Lemma extract_makes_destination_first_witness :
  ∃ w' e, extract_files (fun _ _ => ret tt) {| archive_format := "tar.gz" |}
            ["/"; "tmp"; "backup.tar.gz"] ["/"; "tmp"; "restored"] (demo_world [] None)
          = (w', Raise e)
          ∧ fs w' !! ["/"; "tmp"; "restored"] = Some Dir.
Proof.
  apply (extract_makes_destination_first (fun _ _ => ret tt) {| archive_format := "tar.gz" |}
           ["/"; "tmp"; "backup.tar.gz"] ["/"; "tmp"; "restored"] (demo_world [] None)).
  - reflexivity.
  - vm_compute; reflexivity.
  - discriminate.
  - reflexivity.
  - vm_compute; reflexivity.
Defined.

Example potential_ssh_files_are_sorted :
  get_potential_ssh_file_paths ["~"; ".ssh"]
  = map (fun n => ["~"; ".ssh"; n])
      [ "authorized_keys"; "config"; "id_dsa"; "id_dsa.pub"; "id_ecdsa"; "id_ecdsa.pub";
        "id_ecdsa_sk"; "id_ecdsa_sk.pub"; "id_ed25519"; "id_ed25519.pub"; "id_ed25519_sk";
        "id_ed25519_sk.pub"; "id_rsa"; "id_rsa.pub"; "identity"; "identity.pub";
        "known_hosts" ].
Proof. vm_compute. reflexivity. Qed.
